(** * pdf-info-extractor: the extraction and reconciliation pipeline of app.py

    A shallow embedding of [src/app.py].  Python strings are sequences of
    Unicode code points, modelled as [list N].  The three library layers the
    program leans on are modelled as far as the program uses them:

    - [Re]: the backtracking matcher of Python's [re] for the pattern
      fragment that occurs in app.py (character sets under the quantifiers
      "one", greedy [+] and lazy [*?]), with [re.match], [re.search],
      [re.finditer] and [re.sub];
    - [Json]: the values, truth test, [str()] and [json.loads] / [json.dumps]
      of Python's [json] module;
    - [App]: the functions of app.py themselves.

    What belongs to the Unicode database or to the float printer
    ([str.lower], [repr] of a string inside a container, [repr] of a float)
    and the text of a decoder exception are the fields of the class
    [Runtime]; the text-generation backend is an argument of
    [extract_info_from_pdf].  Every theorem holds for whatever they return. *)

From Stdlib Require Import String Ascii.
From Stdlib Require Import List NArith ZArith Bool Lia Permutation.
Import ListNotations.

Set Implicit Arguments.
Set Warnings "-register-all".


(** ** Python strings *)

Definition pystr := list N.

Definition ch (a : ascii) : N := N_of_ascii a.
Arguments ch a%_char.

(** [py "abc"] is the Python literal ['abc']. *)
Definition py (s : string) : pystr := map N_of_ascii (list_ascii_of_string s).
Arguments py s%_string.

(** [pyq] reads an apostrophe as a double quote, so that JSON text can be
    written inside a Rocq string literal. *)
Definition pyq (s : string) : pystr :=
  map (fun c => if N.eqb c 39 then 34%N else c) (py s).
Arguments pyq s%_string.

Definition nl : pystr := [10%N].

Fixpoint str_eqb (a b : pystr) : bool :=
  match a, b with
  | [], [] => true
  | x :: a', y :: b' => N.eqb x y && str_eqb a' b'
  | _, _ => false
  end.

(** [s.startswith(p)] and the substring test [p in s]. *)
Fixpoint startswith (p s : pystr) : bool :=
  match p, s with
  | [], _ => true
  | x :: p', y :: s' => N.eqb x y && startswith p' s'
  | _ :: _, [] => false
  end.

Fixpoint contains (p s : pystr) : bool :=
  startswith p s ||
  match s with
  | [] => false
  | _ :: s' => contains p s'
  end.

(** ** Python's [re], for the patterns of app.py *)

Module Re.

Definition charset := N -> bool.

(** A pattern item is a character set under a quantifier: exactly one
    character, [+] (greedy, at least one) or [*?] (lazy, any number). *)
Inductive quant := One | Plus | LazyStar.

Definition regex := list (charset * quant).

(** The lazy loop tries the rest of the pattern first and takes one more
    character only when that fails. *)
Fixpoint lazy_star (c : charset) (k : pystr -> option pystr) (s : pystr)
  : option pystr :=
  match k s with
  | Some rest => Some rest
  | None =>
      match s with
      | a :: s' => if c a then lazy_star c k s' else None
      | [] => None
      end
  end.

(** The greedy loop takes as many characters as it can and gives them back
    one at a time while the rest of the pattern fails. *)
Fixpoint greedy_star (c : charset) (k : pystr -> option pystr) (s : pystr)
  : option pystr :=
  match s with
  | a :: s' =>
      if c a then
        match greedy_star c k s' with
        | Some rest => Some rest
        | None => k s
        end
      else k s
  | [] => k s
  end.

(** [match_here r s]: the pattern matched at the start of [s]; the result is
    what is left of [s] after the match the backtracking search finds first. *)
Fixpoint match_here (r : regex) (s : pystr) : option pystr :=
  match r with
  | [] => Some s
  | (c, One) :: r' =>
      match s with
      | a :: s' => if c a then match_here r' s' else None
      | [] => None
      end
  | (c, Plus) :: r' =>
      match s with
      | a :: s' => if c a then greedy_star c (match_here r') s' else None
      | [] => None
      end
  | (c, LazyStar) :: r' => lazy_star c (match_here r')  s
  end.

Definition matched (s rest : pystr) : pystr :=
  firstn (length s - length rest) s.

(** [re.match(r, s)]: the match object's [group(0)], or [None]. *)
Definition re_match (r : regex) (s : pystr) : option pystr :=
  match match_here r s with
  | Some rest => Some (matched s rest)
  | None => None
  end.

(** [re.search(r, s)]: the start positions are tried from left to right.
    The result is (text before the match, [group(0)], text after it). *)
Fixpoint re_search (r : regex) (s : pystr) : option (pystr * pystr * pystr) :=
  match match_here r s with
  | Some rest => Some ([], matched s rest, rest)
  | None =>
      match s with
      | [] => None
      | a :: s' =>
          match re_search r s' with
          | Some (pre, m, post) => Some (a :: pre, m, post)
          | None => None
          end
      end
  end.

(** [re.finditer(r, s)], as the list of the [group(0)] of its matches: the
    scan goes on after each match.  After an empty match the scan moves one
    character on; no pattern of app.py matches the empty string. *)
Fixpoint finditer_fuel (n : nat) (r : regex) (s : pystr) : list pystr :=
  match n with
  | O => []
  | S n' =>
      match re_search r s with
      | None => []
      | Some (_, m, post) =>
          m :: match m, post with
               | _ :: _, _ => finditer_fuel n' r post
               | [], _ :: post' => finditer_fuel n' r post'
               | [], [] => []
               end
      end
  end.

Definition re_finditer (r : regex) (s : pystr) : list pystr :=
  finditer_fuel (S (length s)) r s.

(** [re.sub(r, repl, s)] with a literal replacement: every match, from left
    to right and without overlap, is replaced.  After an empty match one
    character is copied; no pattern of app.py matches the empty string. *)
Fixpoint sub_fuel (n : nat) (r : regex) (repl s : pystr) : pystr :=
  match n with
  | O => s
  | S n' =>
      match s with
      | [] => match match_here r [] with Some _ => repl | None => [] end
      | a :: s' =>
          match match_here r s with
          | Some rest =>
              if Nat.ltb (length rest) (length s)
              then repl ++ sub_fuel n' r repl rest
              else repl ++ a :: sub_fuel n' r repl s'
          | None => a :: sub_fuel n' r repl s'
          end
      end
  end.

Definition re_sub (r : regex) (repl s : pystr) : pystr :=
  sub_fuel (S (length s)) r repl s.

(** The words a pattern denotes: what any engine for it may match. *)
Fixpoint matches (r : regex) (m : pystr) : Prop :=
  match r with
  | [] => m = []
  | (c, One) :: r' =>
      exists a m', m = a :: m' /\ c a = true /\ matches r' m'
  | (c, Plus) :: r' =>
      exists w m',
        m = w ++ m' /\ w <> [] /\ forallb c w = true /\ matches r' m'
  | (c, LazyStar) :: r' =>
      exists w m', m = w ++ m' /\ forallb c w = true /\ matches r' m'
  end.

(** A continuation [k] returns only splits of its input whose first part is
    in [L], and returns one whenever the input has such a split. *)
Definition sound (k : pystr -> option pystr) (L : pystr -> Prop) : Prop :=
  forall s rest, k s = Some rest -> exists m, s = m ++ rest /\ L m.

Definition complete (k : pystr -> option pystr) (L : pystr -> Prop) : Prop :=
  forall m rest, L m -> k (m ++ rest) <> None.

Definition repeated (c : charset) (L : pystr -> Prop) (m : pystr) : Prop :=
  exists w m', m = w ++ m' /\ forallb c w = true /\ L m'.

(** [occurs_in r s pre m post]: [m] is an occurrence of [r] in [s]. *)
Definition occurs_in (r : regex) (s pre m post : pystr) : Prop :=
  s = pre ++ m ++ post /\ matches r m.

(** The occurrence starts where the first occurrence of [r] in [s] starts. *)
Definition leftmost (r : regex) (s pre : pystr) : Prop :=
  forall pre' m' post', occurs_in r s pre' m' post' -> length pre <= length pre'.

End Re.

(** ** Python values that [json.loads] produces *)

Module Json.

(** A float is kept as the decimal literal it was read from,
    (-1)^neg * m * 10^e, or as one of the constants [Infinity] and [NaN]. *)
Inductive pyfloat :=
| FDec (neg : bool) (m : N) (e : Z)
| FInf (neg : bool)
| FNaN.

Inductive json :=
| JNull
| JBool (b : bool)
| JInt (z : Z)
| JFloat (f : pyfloat)
| JStr (s : pystr)
| JArray (l : list json)
| JObject (o : list (pystr * json)).

(** A dict is a list of entries with distinct keys, in insertion order. *)
Definition dict := list (pystr * json).

Fixpoint lookup (d : dict) (k : pystr) : option json :=
  match d with
  | [] => None
  | (k', v) :: d' => if str_eqb k' k then Some v else lookup d' k
  end.

(** [d.get(k, default)] *)
Definition dict_get (d : dict) (k : pystr) (default : json) : json :=
  match lookup d k with
  | Some v => v
  | None => default
  end.

(** [d[k] = v]: an existing key keeps its place. *)
Fixpoint dict_set (d : dict) (k : pystr) (v : json) : dict :=
  match d with
  | [] => [(k, v)]
  | (k', v') :: d' =>
      if str_eqb k' k then (k', v) :: d' else (k', v') :: dict_set d' k v
  end.

(** A decimal literal denotes the float 0.0 (or -0.0) when it rounds to zero:
    its value is at most 2^-1075, half of the least positive double. *)
Definition float_is_zero (f : pyfloat) : bool :=
  match f with
  | FDec _ m e =>
      N.eqb m 0 ||
      (Z.ltb e 0 && Z.leb (Z.of_N m * 2 ^ 1075) (10 ^ (- e)))
  | FInf _ => false
  | FNaN => false
  end.

(** [bool(v)] *)
Definition truthy (v : json) : bool :=
  match v with
  | JNull => false
  | JBool b => b
  | JInt z => negb (Z.eqb z 0)
  | JFloat f => negb (float_is_zero f)
  | JStr s => match s with [] => false | _ => true end
  | JArray l => match l with [] => false | _ => true end
  | JObject o => match o with [] => false | _ => true end
  end.

(** [v in options] for a list of strings: only a string equals a string. *)
Definition in_strings (v : json) (options : list pystr) : bool :=
  match v with
  | JStr s => existsb (str_eqb s) options
  | _ => false
  end.

Definition digit_char (d : N) : N := (48 + d)%N.

Fixpoint digits_fuel (n : nat) (x : N) (acc : pystr) : pystr :=
  match n with
  | O => acc
  | S n' =>
      let acc' := digit_char (x mod 10) :: acc in
      if N.ltb x 10 then acc' else digits_fuel n' (x / 10) acc'
  end.

(** The decimal digits of a natural number. *)
Definition digits (x : N) : pystr := digits_fuel (S (N.to_nat (N.log2 x))) x [].

(** [int.__repr__] *)
Definition repr_int (z : Z) : pystr :=
  match z with
  | Zneg p => ch "-" :: digits (Npos p)
  | _ => digits (Z.to_N z)
  end.

Section Repr.
(** [repr] of a string and of a finite float. *)
Variable repr_str : pystr -> pystr.
Variable repr_float : pyfloat -> pystr.

Definition str_float (f : pyfloat) : pystr :=
  match f with
  | FDec _ _ _ => repr_float f
  | FInf false => py "inf"
  | FInf true => py "-inf"
  | FNaN => py "nan"
  end.

(** [repr(v)] *)
Fixpoint repr (v : json) : pystr :=
  match v with
  | JNull => py "None"
  | JBool true => py "True"
  | JBool false => py "False"
  | JInt z => repr_int z
  | JFloat f => str_float f
  | JStr s => repr_str s
  | JArray l =>
      py "[" ++
      (fix items (l : list json) : pystr :=
         match l with
         | [] => []
         | [x] => repr x
         | x :: l' => repr x ++ py ", " ++ items l'
         end) l ++
      py "]"
  | JObject o =>
      py "{" ++
      (fix items (o : list (pystr * json)) : pystr :=
         match o with
         | [] => []
         | [(k, x)] => repr_str k ++ py ": " ++ repr x
         | (k, x) :: o' => repr_str k ++ py ": " ++ repr x ++ py ", " ++ items o'
         end) o ++
      py "}"
  end.

(** [str(v)] *)
Definition str (v : json) : pystr :=
  match v with
  | JStr s => s
  | _ => repr v
  end.
End Repr.

(** *** [json.loads] *)

(** What a scanning function returns: a value and the text after it, a
    decoding error, or the recursion budget of the model used up. *)
Inductive parse (A : Type) :=
| Parsed (a : A) (rest : pystr)
| Invalid
| OutOfFuel.
Arguments Invalid {A}.
Arguments OutOfFuel {A}.

Definition is_whitespace (c : N) : bool :=
  N.eqb c 32 || N.eqb c 9 || N.eqb c 10 || N.eqb c 13.

Fixpoint skip_ws (s : pystr) : pystr :=
  match s with
  | c :: s' => if is_whitespace c then skip_ws s' else s
  | [] => []
  end.

Definition is_digit (c : N) : bool := N.leb 48 c && N.leb c 57.

Fixpoint span (p : N -> bool) (s : pystr) : pystr * pystr :=
  match s with
  | c :: s' =>
      if p c then let (a, b) := span p s' in (c :: a, b) else ([], s)
  | [] => ([], [])
  end.

Definition digits_value (ds : pystr) : N :=
  fold_left (fun acc d => (10 * acc + (d - 48))%N) ds 0%N.

Definition hex_value (c : N) : option N :=
  if N.leb 48 c && N.leb c 57 then Some (c - 48)%N
  else if N.leb 97 c && N.leb c 102 then Some (c - 87)%N
  else if N.leb 65 c && N.leb c 70 then Some (c - 55)%N
  else None.

Definition hex4 (a b c d : N) : option N :=
  match hex_value a, hex_value b, hex_value c, hex_value d with
  | Some x, Some y, Some z, Some w => Some (((x * 16 + y) * 16 + z) * 16 + w)%N
  | _, _, _, _ => None
  end.

Definition is_high_surrogate (u : N) : bool := N.leb 55296 u && N.leb u 56319.
Definition is_low_surrogate (u : N) : bool := N.leb 56320 u && N.leb u 57343.
Definition join_surrogates (hi lo : N) : N :=
  (65536 + ((hi - 55296) * 1024 + (lo - 56320)))%N.

(** The character a one-letter escape stands for. *)
Definition unescape (c : N) : option N :=
  if N.eqb c 34 then Some 34%N
  else if N.eqb c 92 then Some 92%N
  else if N.eqb c 47 then Some 47%N
  else if N.eqb c (ch "b") then Some 8%N
  else if N.eqb c (ch "f") then Some 12%N
  else if N.eqb c (ch "n") then Some 10%N
  else if N.eqb c (ch "r") then Some 13%N
  else if N.eqb c (ch "t") then Some 9%N
  else None.

(** The body of a string literal, after its opening quote (strict mode: a
    raw control character is an error).  [acc] holds the characters read so
    far, last one first. *)
Fixpoint scanstring (s : pystr) (acc : pystr) : parse pystr :=
  match s with
  | [] => Invalid
  | c :: rest =>
      if N.eqb c 34 then Parsed (rev acc) rest
      else if N.eqb c 92 then
        match rest with
        | [] => Invalid
        | e :: rest1 =>
            if N.eqb e (ch "u") then
              match rest1 with
              | h1 :: h2 :: h3 :: h4 :: rest2 =>
                  match hex4 h1 h2 h3 h4 with
                  | None => Invalid
                  | Some uni =>
                      if is_high_surrogate uni then
                        match rest2 with
                        | b :: u :: k1 :: k2 :: k3 :: k4 :: rest3 =>
                            if N.eqb b 92 && N.eqb u (ch "u") then
                              match hex4 k1 k2 k3 k4 with
                              | None => Invalid
                              | Some uni2 =>
                                  if is_low_surrogate uni2
                                  then scanstring rest3 (join_surrogates uni uni2 :: acc)
                                  else scanstring rest2 (uni :: acc)
                              end
                            else scanstring rest2 (uni :: acc)
                        | _ => scanstring rest2 (uni :: acc)
                        end
                      else scanstring rest2 (uni :: acc)
                  end
              | _ => Invalid
              end
            else
              match unescape e with
              | Some x => scanstring rest1 (x :: acc)
              | None => Invalid
              end
        end
      else if N.leb c 31 then Invalid
      else scanstring rest (c :: acc)
  end.

Definition signed (neg : bool) (n : N) : Z :=
  if neg then (- Z.of_N n)%Z else Z.of_N n.

(** A fraction: a dot and at least one digit. *)
Definition scan_fraction (s : pystr) : option pystr * pystr :=
  match s with
  | dot :: d :: s' =>
      if N.eqb dot (ch ".") && is_digit d
      then let (ds, r) := span is_digit s' in (Some (d :: ds), r)
      else (None, s)
  | _ => (None, s)
  end.

(** An exponent: e or E, an optional sign, at least one digit. *)
Definition scan_exponent (s : pystr) : option Z * pystr :=
  match s with
  | e :: s' =>
      if N.eqb e (ch "e") || N.eqb e (ch "E") then
        let '(eneg, s'') :=
          match s' with
          | c :: t =>
              if N.eqb c (ch "+") then (false, t)
              else if N.eqb c (ch "-") then (true, t)
              else (false, s')
          | [] => (false, s')
          end in
        let (ds, r) := span is_digit s'' in
        match ds with
        | [] => (None, s)
        | _ :: _ => (Some (signed eneg (digits_value ds)), r)
        end
      else (None, s)
  | [] => (None, s)
  end.

(** A number after its integer digits: a fraction or an exponent makes it a
    float. *)
Definition number_tail (neg : bool) (int_digits : pystr) (s : pystr) : parse json :=
  let (frac, s1) := scan_fraction s in
  let (exponent, s2) := scan_exponent s1 in
  match frac, exponent with
  | None, None => Parsed (JInt (signed neg (digits_value int_digits))) s2
  | _, _ =>
      let fd := match frac with Some ds => ds | None => [] end in
      let ex := match exponent with Some x => x | None => 0%Z end in
      Parsed (JFloat (FDec neg (digits_value (int_digits ++ fd))
                           (ex - Z.of_nat (length fd)))) s2
  end.

(** The integer digits, 0 or a run of digits that starts with 1-9, and what
    follows them. *)
Definition scan_integer (neg : bool) (s : pystr) : parse json :=
  match s with
  | c :: s2 =>
      if N.eqb c (ch "0") then number_tail neg [c] s2
      else if is_digit c then
        let (ds, s3) := span is_digit s2 in number_tail neg (c :: ds) s3
      else Invalid
  | [] => Invalid
  end.

(** A number: an optional minus sign, then the digits. *)
Definition match_number (s : pystr) : parse json :=
  match s with
  | c :: s' => if N.eqb c (ch "-") then scan_integer true s' else scan_integer false s
  | [] => Invalid
  end.

Definition constant (name : pystr) (v : json) (s : pystr) : option (parse json) :=
  if startswith name s then Some (Parsed v (skipn (length name) s)) else None.

(** The terms that are neither a string, an object nor an array. *)
Definition scan_atom (s : pystr) : parse json :=
  match constant (py "null") JNull s with Some r => r | None =>
  match constant (py "true") (JBool true) s with Some r => r | None =>
  match constant (py "false") (JBool false) s with Some r => r | None =>
  match constant (py "NaN") (JFloat FNaN) s with Some r => r | None =>
  match constant (py "Infinity") (JFloat (FInf false)) s with Some r => r | None =>
  match constant (py "-Infinity") (JFloat (FInf true)) s with Some r => r | None =>
  match_number s
  end end end end end end.

(** [scan_once]: one JSON term at the start of [s].  [parse_members] reads
    the members of an object from a key on, [parse_items] the items of an
    array from an item on; [acc] holds what was read so far. *)
Fixpoint scan_once (fuel : nat) (s : pystr) : parse json :=
  match fuel with
  | O => OutOfFuel
  | S n =>
      match s with
      | [] => Invalid
      | c :: s' =>
          if N.eqb c 34 then
            match scanstring s' [] with
            | Parsed x rest => Parsed (JStr x) rest
            | Invalid => Invalid
            | OutOfFuel => OutOfFuel
            end
          else if N.eqb c (ch "{") then
            match skip_ws s' with
            | c1 :: s1 =>
                if N.eqb c1 (ch "}") then Parsed (JObject []) s1
                else parse_members n [] (c1 :: s1)
            | [] => Invalid
            end
          else if N.eqb c (ch "[") then
            match skip_ws s' with
            | c1 :: s1 =>
                if N.eqb c1 (ch "]") then Parsed (JArray []) s1
                else parse_items n [] (c1 :: s1)
            | [] => Invalid
            end
          else scan_atom s
      end
  end
with parse_members (fuel : nat) (acc : dict) (s : pystr) : parse json :=
  match fuel with
  | O => OutOfFuel
  | S n =>
      match s with
      | c :: s1 =>
          if N.eqb c 34 then
            match scanstring s1 [] with
            | Parsed key s2 =>
                match skip_ws s2 with
                | c2 :: s3 =>
                    if N.eqb c2 (ch ":") then
                      match scan_once n (skip_ws s3) with
                      | Parsed v s4 =>
                          let acc' := dict_set acc key v in
                          match skip_ws s4 with
                          | c5 :: s5 =>
                              if N.eqb c5 (ch "}") then Parsed (JObject acc') s5
                              else if N.eqb c5 (ch ",")
                              then parse_members n acc' (skip_ws s5)
                              else Invalid
                          | [] => Invalid
                          end
                      | Invalid => Invalid
                      | OutOfFuel => OutOfFuel
                      end
                    else Invalid
                | [] => Invalid
                end
            | Invalid => Invalid
            | OutOfFuel => OutOfFuel
            end
          else Invalid
      | [] => Invalid
      end
  end
with parse_items (fuel : nat) (acc : list json) (s : pystr) : parse json :=
  match fuel with
  | O => OutOfFuel
  | S n =>
      match scan_once n s with
      | Parsed v s1 =>
          match skip_ws s1 with
          | c2 :: s2 =>
              if N.eqb c2 (ch "]") then Parsed (JArray (acc ++ [v])) s2
              else if N.eqb c2 (ch ",")
              then parse_items n (acc ++ [v]) (skip_ws s2)
              else Invalid
          | [] => Invalid
          end
      | Invalid => Invalid
      | OutOfFuel => OutOfFuel
      end
  end.

(** [json.loads(s)] on a [str]: no byte order mark, one term between
    optional whitespace, nothing after it.  Python's recursion limit and its
    limit on the digits of an integer literal are not part of the model. *)
Definition loads_fuel (fuel : nat) (s : pystr) : parse json :=
  if startswith [65279%N] s then Invalid
  else
    match scan_once fuel (skip_ws s) with
    | Parsed v rest =>
        match skip_ws rest with
        | [] => Parsed v []
        | _ :: _ => Invalid
        end
    | Invalid => Invalid
    | OutOfFuel => OutOfFuel
    end.

Definition loads (s : pystr) : option json :=
  match loads_fuel (S (2 * length s)) s with
  | Parsed v _ => Some v
  | _ => None
  end.

(** *** [json.dumps] with an indent *)

(** A decimal literal denotes [inf] when it rounds beyond the largest double:
    its value is at least 2^1024 - 2^970. *)
Definition float_is_inf (f : pyfloat) : bool :=
  match f with
  | FDec _ m e =>
      let top := (2 ^ 1024 - 2 ^ 970)%Z in
      if Z.leb 0 e then Z.leb top (Z.of_N m * 10 ^ e)
      else Z.leb (top * 10 ^ (- e)) (Z.of_N m)
  | FInf _ => true
  | FNaN => false
  end.

Definition float_is_neg (f : pyfloat) : bool :=
  match f with
  | FDec neg _ _ => neg
  | FInf neg => neg
  | FNaN => false
  end.

Definition hex_digit (d : N) : N :=
  if N.ltb d 10 then (48 + d)%N else (87 + d)%N.

Definition hex4_of (n : N) : pystr :=
  [hex_digit (n / 4096 mod 16); hex_digit (n / 256 mod 16);
   hex_digit (n / 16 mod 16); hex_digit (n mod 16)].

(** [ensure_ascii]: what is not printable ASCII is written as an escape. *)
Definition escape_char (c : N) : pystr :=
  if N.eqb c 34 then [92; 34]%N
  else if N.eqb c 92 then [92; 92]%N
  else if N.eqb c 10 then 92%N :: py "n"
  else if N.eqb c 13 then 92%N :: py "r"
  else if N.eqb c 9 then 92%N :: py "t"
  else if N.eqb c 12 then 92%N :: py "f"
  else if N.eqb c 8 then 92%N :: py "b"
  else if N.leb 32 c && N.leb c 126 then [c]
  else if N.ltb c 65536 then 92%N :: ch "u" :: hex4_of c
  else
    let n := (c - 65536)%N in
    92%N :: ch "u" :: hex4_of (55296 + (n / 1024) mod 1024) ++
    92%N :: ch "u" :: hex4_of (56320 + n mod 1024).

Definition encode_string (s : pystr) : pystr :=
  34%N :: flat_map escape_char s ++ [34%N].

Section Dumps.
Variable repr_float : pyfloat -> pystr.
Variable indent : nat.

Definition floatstr (f : pyfloat) : pystr :=
  match f with
  | FNaN => py "NaN"
  | _ =>
      if float_is_inf f
      then (if float_is_neg f then py "-Infinity" else py "Infinity")
      else repr_float f
  end.

Definition newline_indent (level : nat) : pystr :=
  10%N :: repeat 32%N (indent * level).

Fixpoint dumps_at (level : nat) (v : json) : pystr :=
  match v with
  | JNull => py "null"
  | JBool true => py "true"
  | JBool false => py "false"
  | JInt z => repr_int z
  | JFloat f => floatstr f
  | JStr s => encode_string s
  | JArray [] => py "[]"
  | JArray l =>
      py "[" ++ newline_indent (S level) ++
      (fix items (l : list json) : pystr :=
         match l with
         | [] => []
         | [x] => dumps_at (S level) x
         | x :: l' =>
             dumps_at (S level) x ++ py "," ++ newline_indent (S level) ++ items l'
         end) l ++
      newline_indent level ++ py "]"
  | JObject [] => py "{}"
  | JObject o =>
      py "{" ++ newline_indent (S level) ++
      (fix items (o : list (pystr * json)) : pystr :=
         match o with
         | [] => []
         | [(k, x)] => encode_string k ++ py ": " ++ dumps_at (S level) x
         | (k, x) :: o' =>
             encode_string k ++ py ": " ++ dumps_at (S level) x ++
             py "," ++ newline_indent (S level) ++ items o'
         end) o ++
      newline_indent level ++ py "}"
  end.

(** [json.dumps(v, indent=indent)] *)
Definition dumps (v : json) : pystr := dumps_at 0 v.
End Dumps.

End Json.

(** ** app.py *)

Module App.
Import Re Json.

(** What the Python runtime and the libraries decide: [str.lower], [repr] of
    a string and of a float, and the message of the exception [json.loads]
    raises on a text.  Of [str.lower] the development uses one fact, its
    value on ASCII text. *)
Definition ascii_lower (c : N) : N :=
  if N.leb 65 c && N.leb c 90 then (c + 32)%N else c.

Definition is_ascii (s : pystr) : bool := forallb (fun c => N.ltb c 128) s.

Class Runtime := {
  str_lower : pystr -> pystr;
  repr_str : pystr -> pystr;
  repr_float : pyfloat -> pystr;
  decode_error_text : pystr -> pystr;
  (** On ASCII text [str.lower] turns A-Z into a-z and nothing else. *)
  str_lower_ascii :
    forall s, is_ascii s = true -> str_lower s = map ascii_lower s
}.

Inductive exn := TypeError | KeyError | AttributeError.

Inductive result (A : Type) :=
| Ok (a : A)
| Raise (e : exn).
Arguments Raise {A}.

Definition bind {A B} (r : result A) (f : A -> result B) : result B :=
  match r with
  | Ok a => f a
  | Raise e => Raise e
  end.

Notation "x <- r ;; k" := (bind r (fun x => k))
  (at level 61, r at next level, right associativity).

(** [str.isspace] on one character. *)
Definition is_space (c : N) : bool :=
  (N.leb 9 c && N.leb c 13) || (N.leb 28 c && N.leb c 32) ||
  N.eqb c 133 || N.eqb c 160 || N.eqb c 5760 ||
  (N.leb 8192 c && N.leb c 8202) || N.eqb c 8232 || N.eqb c 8233 ||
  N.eqb c 8239 || N.eqb c 8287 || N.eqb c 12288.

Fixpoint lstrip (s : pystr) : pystr :=
  match s with
  | c :: s' => if is_space c then lstrip s' else s
  | [] => []
  end.

Definition rstrip (s : pystr) : pystr := rev (lstrip (rev s)).

(** [s.strip()] *)
Definition strip (s : pystr) : pystr := rstrip (lstrip s).

(** [extract_info_function] *)
Definition string_type : json := JObject [(py "type", JStr (py "string"))].

Definition schema_fields : list pystr :=
  [py "name"; py "mobile_number"; py "address"; py "email"; py "linkedin";
   py "github"; py "experience_years"].

Definition schema_properties : json :=
  JObject (map (fun f => (f, string_type)) schema_fields).

Definition extract_info_function : json :=
  JObject
    [(py "name", JStr (py "extract_candidate_info"));
     (py "description",
      JStr (py "Extracts key personal and professional information from any PDF resume or profile."));
     (py "parameters",
      JObject
        [(py "type", JStr (py "object"));
         (py "properties", schema_properties);
         (py "required", JArray (map JStr schema_fields))])].

(** [v[k]] for a string [k] *)
Definition subscript (v : json) (k : pystr) : result json :=
  match v with
  | JObject o =>
      match lookup o k with
      | Some x => Ok x
      | None => Raise KeyError
      end
  | _ => Raise TypeError
  end.

(** The template of the prompt.  [prompt_head] and [prompt_tail] are the
    text around the two fields as the f-string has it; [prompt_intro] and
    [prompt_outro] are the same without the white space at the two ends. *)
Definition prompt_intro : pystr :=
  py "You are an expert data extractor. Carefully read the following text and extract the following fields as accurately as possible." ++
  nl ++ nl ++
  py "For each field, output ONLY the direct value asked for. For LinkedIn and GitHub, output only the profile URL. If a value is not present, output NA." ++
  nl ++ nl.

Definition prompt_head : pystr := nl ++ prompt_intro.

Definition prompt_middle : pystr :=
  nl ++ nl ++
  py "Return your answer as a JSON object matching this schema." ++
  nl ++ nl ++
  py "--- BEGIN TEXT ---" ++ nl.

Definition prompt_outro : pystr := nl ++ py "--- END TEXT ---".

Definition prompt_tail : pystr := prompt_outro ++ nl ++ py "    ".

Section WithRuntime.
Context {rt : Runtime}.

Definition build_extraction_prompt (text : pystr) (schema : json) : result pystr :=
  parameters <- subscript schema (py "parameters") ;;
  properties <- subscript parameters (py "properties") ;;
  Ok (strip (prompt_head ++ dumps repr_float 2 properties ++ prompt_middle ++
             firstn 2000 text ++ prompt_tail)).

(** A link of a page, as far as the program reads it: its ["uri"] entry,
    when it has one. *)
Definition link := option pystr.

(** A PDF file as the two libraries see it: the text [extract_text] returns
    and the links of each page. *)
Record pdf := {
  pdf_text : pystr;
  pdf_pages : list (list link)
}.

Definition extract_pdf_links (doc : list (list link)) : list pystr :=
  flat_map
    (fun page =>
       flat_map
         (fun l : link =>
            let uri := match l with Some u => u | None => [] end in
            match uri with
            | [] => []
            | _ :: _ => [uri]
            end)
         page)
    doc.

Fixpoint find_profile_url_from_links (links : list pystr) (platform : pystr) : pystr :=
  match links with
  | [] => py "NA"
  | l :: links' =>
      if contains platform (str_lower l) then l
      else find_profile_url_from_links links' platform
  end.

Definition in_range (lo hi : ascii) (c : N) : bool :=
  N.leb (N_of_ascii lo) c && N.leb c (N_of_ascii hi).

Definition alnum (c : N) : bool :=
  in_range "a" "z" c || in_range "A" "Z" c || in_range "0" "9" c.

Definition is_char (a : ascii) (c : N) : bool := N.eqb c (N_of_ascii a).
Arguments is_char a%_char c.

(** [[a-zA-Z0-9_.+-]+@[a-zA-Z0-9-]+\.[a-zA-Z0-9-.]+] *)
Definition email_re : regex :=
  [(fun c => alnum c || is_char "_" c || is_char "." c || is_char "+" c ||
             is_char "-" c, Plus);
   (is_char "@", One);
   (fun c => alnum c || is_char "-" c, Plus);
   (is_char ".", One);
   (fun c => alnum c || is_char "-" c || is_char "." c, Plus)].

Definition find_email (text : pystr) : pystr :=
  match re_search email_re text with
  | Some (_, m, _) => m
  | None => py "NA"
  end.

(** [\{.*?\}] under [re.DOTALL] *)
Definition json_block_re : regex :=
  [(is_char "{", One); (fun _ => true, LazyStar); (is_char "}", One)].

(** [[\x00-\x08\x0b\x0c\x0e-\x1f\x7f]] *)
Definition control_re : regex :=
  [(fun c => N.leb c 8 || N.eqb c 11 || N.eqb c 12 ||
             (N.leb 14 c && N.leb c 31) || N.eqb c 127, One)].

(** [\\[nt]] *)
Definition escaped_nt_re : regex :=
  [(fun c => N.eqb c 92, One); (fun c => is_char "n" c || is_char "t" c, One)].

(** [.+@.+\..+], where the dot matches all but a newline. *)
Definition not_newline (c : N) : bool := negb (N.eqb c 10).

Definition email_shape_re : regex :=
  [(not_newline, Plus); (is_char "@", One); (not_newline, Plus);
   (is_char ".", One); (not_newline, Plus)].

Definition sanitize (json_str : pystr) : pystr :=
  let json_str := re_sub control_re [] json_str in
  re_sub escaped_nt_re (py " ") json_str.

Definition is_profile_field (field : pystr) : bool :=
  str_eqb field (py "linkedin") || str_eqb field (py "github").

(** The first two statements of [safe]: the entry of the field, and the
    entry ["value"] of it when it is a dict. *)
Definition model_value (data : dict) (field : pystr) : json :=
  let val := dict_get data field (JStr []) in
  match val with
  | JObject o => dict_get o (py "value") (JStr [])
  | _ => val
  end.

(** [not val or val in ["NA", "None", "null"]] *)
Definition missing (val : json) : bool :=
  negb (truthy val) || in_strings val [py "NA"; py "None"; py "null"].

(** What [safe] returns for a missing value. *)
Definition fallback (links : list pystr) (pdf_text : pystr) (field : pystr)
  : pystr :=
  if is_profile_field field then find_profile_url_from_links links field
  else if str_eqb field (py "email") then find_email pdf_text
  else py "NA".

(** The closure [safe] of [extract_info_from_pdf], with the variables it
    captures as arguments. *)
Definition safe (data : dict) (links : list pystr) (pdf_text : pystr)
    (field : pystr) : result pystr :=
  let val := model_value data field in
  if missing val then Ok (fallback links pdf_text field)
  else
    let url := find_profile_url_from_links links field in
    if is_profile_field field && negb (str_eqb url (py "NA")) then Ok url
    else if str_eqb field (py "email") then
      match val with
      | JStr s =>
          match re_match email_shape_re s with
          | Some _ => Ok s
          | None => Ok (find_email pdf_text)
          end
      | _ => Raise TypeError
      end
    else Ok (if truthy val then strip (str repr_str repr_float val) else py "NA").

Definition no_json_message : pystr :=
  py "Could not find a JSON block in the model output.".

(** The labels of the report, in the order of the lines. *)
Definition labels : list (pystr * pystr) :=
  [(py "Name", py "name");
   (py "Mobile Number", py "mobile_number");
   (py "Address", py "address");
   (py "Email", py "email");
   (py "Linkedin", py "linkedin");
   (py "Github", py "github");
   (py "Experience Years", py "experience_years")].

(** The f-string [pretty]: the calls of [safe] are made from left to right
    and the first exception leaves the function. *)
Definition pretty (safe : pystr -> result pystr) : result pystr :=
  name <- safe (py "name") ;;
  mobile_number <- safe (py "mobile_number") ;;
  address <- safe (py "address") ;;
  email <- safe (py "email") ;;
  linkedin <- safe (py "linkedin") ;;
  github <- safe (py "github") ;;
  experience_years <- safe (py "experience_years") ;;
  Ok (py "Name: " ++ name ++ nl ++
      py "Mobile Number: " ++ mobile_number ++ nl ++
      py "Address: " ++ address ++ nl ++
      py "Email: " ++ email ++ nl ++
      py "Linkedin: " ++ linkedin ++ nl ++
      py "Github: " ++ github ++ nl ++
      py "Experience Years: " ++ experience_years).

(** What [extract_info_from_pdf] does with the model's answer. *)
Definition json_matches (response : pystr) : list pystr :=
  re_finditer json_block_re response.

Definition parse_and_reconcile (response : pystr) (links : list pystr)
    (text : pystr) : result pystr :=
  match json_matches response with
  | [] => Ok no_json_message
  | json_str :: _ =>
      let json_str := sanitize json_str in
      match loads json_str with
      | None =>
          Ok (py "Failed to parse JSON: " ++ decode_error_text json_str ++
              nl ++ nl ++ py "Model Output:" ++ nl ++ response)
      | Some (JObject data) => pretty (safe data links text)
      | Some _ => Raise AttributeError
      end
  end.

(** [client] is the text-generation backend: from the prompt to the
    completion. *)
Definition extract_info_from_pdf (client : pystr -> pystr) (pdf_file : pdf)
  : result pystr :=
  let text := pdf_text pdf_file in
  let links := extract_pdf_links (pdf_pages pdf_file) in
  extraction_prompt <- build_extraction_prompt text extract_info_function ;;
  let response := client extraction_prompt in
  parse_and_reconcile response links text.

End WithRuntime.

(** *** Notions the statements below use *)

(** A text has a brace-delimited block: an opening brace with a closing
    brace somewhere after it. *)
Definition has_json_block (s : pystr) : Prop :=
  exists pre mid post, s = pre ++ ch "{" :: mid ++ ch "}" :: post.


(** The loose shape a model's email must have to be kept: something, an at
    sign, something, a dot, something, all on the first line. *)
Definition email_shaped (s : pystr) : Prop :=
  exists a b c rest,
    s = a ++ ch "@" :: b ++ ch "." :: c ++ rest /\
    a <> [] /\ b <> [] /\ c <> [] /\
    forallb not_newline (a ++ b ++ c) = true.

(** [sep.join(parts)] and the pieces of a text between separators. *)
Fixpoint join (sep : pystr) (parts : list pystr) : pystr :=
  match parts with
  | [] => []
  | [x] => x
  | x :: parts' => x ++ sep ++ join sep parts'
  end.

Fixpoint split_lines (s : pystr) : list pystr :=
  match s with
  | [] => [[]]
  | c :: s' =>
      if N.eqb c 10 then [] :: split_lines s'
      else
        match split_lines s' with
        | l :: ls => (c :: l) :: ls
        | [] => [[c]]
        end
  end.

(** A line of the report: the label, a colon and a space, the value of the
    field. *)
Definition report_line (values : pystr -> pystr) (lf : pystr * pystr) : pystr :=
  fst lf ++ py ": " ++ values (snd lf).

(** A runtime to run the examples with: it lowers A-Z only, quotes a string
    with apostrophes and has one text for every float and every error. *)
#[export] Instance ascii_runtime : Runtime := {|
  str_lower := map ascii_lower;
  repr_str := fun s => 39%N :: s ++ [39%N];
  repr_float := fun _ => py "0.0";
  decode_error_text := fun _ => py "Expecting value";
  str_lower_ascii := fun s _ => eq_refl
|}.

(** *** Notions the further properties use *)

(** The number of closing braces of a text. *)
Fixpoint closers (s : pystr) : nat :=
  match s with
  | [] => 0
  | c :: s' => (if N.eqb c (ch "}") then 1 else 0) + closers s'
  end.

(** The number of dicts in a decoded value, itself included. *)
Fixpoint objects (v : json) : nat :=
  match v with
  | JArray l =>
      (fix go (l : list json) : nat :=
         match l with
         | [] => 0
         | x :: l' => objects x + go l'
         end) l
  | JObject o =>
      S ((fix go (o : list (pystr * json)) : nat :=
            match o with
            | [] => 0
            | (_, x) :: o' => objects x + go o'
            end) o)
  | _ => 0
  end.

Definition objects_list (l : list json) : nat := list_sum (map objects l).

Definition objects_dict (d : dict) : nat :=
  list_sum (map (fun kv => objects (snd kv)) d).

(** The three character sets of the email pattern and the set of the
    control-character pattern. *)
Definition local_char (c : N) : bool :=
  alnum c || is_char "_" c || is_char "." c || is_char "+" c || is_char "-" c.

Definition domain_char (c : N) : bool := alnum c || is_char "-" c.

Definition tail_char (c : N) : bool :=
  alnum c || is_char "-" c || is_char "." c.

Definition is_control (c : N) : bool :=
  N.leb c 8 || N.eqb c 11 || N.eqb c 12 || (N.leb 14 c && N.leb c 31) ||
  N.eqb c 127.

(** A backslash followed by n or t somewhere in the text. *)
Definition has_escaped_nt (s : pystr) : Prop :=
  exists a c b, s = a ++ 92%N :: c :: b /\ (c = ch "n" \/ c = ch "t").

(** The fields [safe] treats alike: all but linkedin, github and email. *)
Definition plain_field (field : pystr) : Prop :=
  is_profile_field field = false /\ str_eqb field (py "email") = false.

(** The model's email is one [safe] can handle: missing, or a string. *)
Definition email_usable (data : dict) : Prop :=
  missing (model_value data (py "email")) = true \/
  exists s, model_value data (py "email") = JStr s.

(** The text returned when the block does not decode. *)
Definition parse_failure_message {rt : Runtime} (json_str response : pystr)
  : pystr :=
  py "Failed to parse JSON: " ++ decode_error_text json_str ++
  nl ++ nl ++ py "Model Output:" ++ nl ++ response.

(** The last item of a pattern is a greedy run of the set [c]. *)
Definition ends_with_run (c : charset) (r : regex) : Prop :=
  exists r0, r = r0 ++ [(c, Plus)].

(** Whatever the continuation leaves does not start with a character of [c]. *)
Definition stops_before (c : charset) (k : pystr -> option pystr) : Prop :=
  forall s rest,
    k s = Some rest ->
    match rest with
    | x :: _ => c x = false
    | [] => True
    end.

End App.

(** * Properties *)

Unset Implicit Arguments.

Import Re Json App.

(** ** Strings *)

Lemma str_eqb_spec a b : str_eqb a b = true <-> a = b.
Proof.
  revert b; induction a as [|x a IH]; intros [|y b]; simpl; split;
    try congruence; try reflexivity.
  - intros H. apply andb_true_iff in H as [H1 H2].
    apply N.eqb_eq in H1. apply IH in H2. congruence.
  - intros H. injection H as -> ->. rewrite N.eqb_refl. simpl. now apply IH.
Qed.

Lemma str_eqb_refl a : str_eqb a a = true.
Proof. now apply str_eqb_spec. Qed.

Lemma str_eqb_neq a b : a <> b -> str_eqb a b = false.
Proof.
  intros H. destruct (str_eqb a b) eqn:E; [|reflexivity].
  apply str_eqb_spec in E. contradiction.
Qed.

Lemma str_eqb_sym a b : str_eqb a b = str_eqb b a.
Proof.
  destruct (str_eqb b a) eqn:E.
  - apply str_eqb_spec in E. subst. apply str_eqb_refl.
  - apply str_eqb_neq. intros ->. rewrite str_eqb_refl in E. discriminate.
Qed.

Lemma startswith_spec p s : startswith p s = true <-> exists t, s = p ++ t.
Proof.
  revert s; induction p as [|x p IH]; intros s; simpl.
  - split; [intros _; now exists s | reflexivity].
  - destruct s as [|y s].
    + split; [discriminate | intros [t Ht]; discriminate].
    + rewrite andb_true_iff, N.eqb_eq, IH. split.
      * intros [-> [t ->]]. now exists t.
      * intros [t Ht]. injection Ht as -> ->. split; [reflexivity | now exists t].
Qed.

Lemma contains_spec p s :
  contains p s = true <-> exists a b, s = a ++ p ++ b.
Proof.
  induction s as [|y s IH].
  - simpl. rewrite orb_false_r, startswith_spec. split.
    + intros [t Ht]. now exists [], t.
    + intros [a [b H]]. destruct a; [now exists b | discriminate].
  - cbn [contains]. rewrite orb_true_iff, startswith_spec, IH. split.
    + intros [[t Ht] | [a [b H]]].
      * now exists [], t.
      * exists (y :: a), b. now rewrite H.
    + intros [[|x a] [b H]].
      * left. now exists b.
      * right. injection H as -> ->. now exists a, b.
Qed.

(** ** The matcher finds what the pattern denotes *)

Section Matcher.

Lemma lazy_star_unfold c k s :
  lazy_star c k s =
  match k s with
  | Some rest => Some rest
  | None =>
      match s with
      | a :: s' => if c a then lazy_star c k s' else None
      | [] => None
      end
  end.
Proof. destruct s; reflexivity. Qed.

Lemma lazy_star_sound c k L : sound k L -> sound (lazy_star c k) (repeated c L).
Proof.
  intros Hk s. induction s as [|a s IH]; intros rest H;
    rewrite lazy_star_unfold in H.
  - destruct (k []) eqn:E; [|discriminate]. injection H as ->.
    destruct (Hk _ _ E) as [m [Hm HL]]. exists m. split; [exact Hm|].
    exists [], m. now repeat split.
  - destruct (k (a :: s)) eqn:E.
    + injection H as ->. destruct (Hk _ _ E) as [m [Hm HL]].
      exists m. split; [exact Hm|]. exists [], m. now repeat split.
    + destruct (c a) eqn:Ca; [|discriminate].
      destruct (IH _ H) as [m [Hm [w [m' [-> [Hw HL]]]]]].
      exists (a :: w ++ m'). split; [now rewrite Hm|].
      exists (a :: w), m'. repeat split; [|exact HL]. simpl. now rewrite Ca.
Qed.

Lemma lazy_star_complete c k L :
  complete k L -> complete (lazy_star c k) (repeated c L).
Proof.
  intros Hk m rest [w [m' [-> [Hw HL]]]]. rewrite <- app_assoc.
  induction w as [|a w IH]; rewrite lazy_star_unfold; simpl.
  - specialize (Hk m' rest HL). destruct (k (m' ++ rest)); congruence.
  - simpl in Hw. apply andb_true_iff in Hw as [Ca Hw].
    destruct (k (a :: w ++ m' ++ rest)); [discriminate|].
    rewrite Ca. now apply IH.
Qed.

Lemma greedy_star_sound c k L :
  sound k L -> sound (greedy_star c k) (repeated c L).
Proof.
  intros Hk s. induction s as [|a s IH]; intros rest H; simpl in H.
  - destruct (Hk _ _ H) as [m [Hm HL]]. exists m. split; [exact Hm|].
    exists [], m. now repeat split.
  - assert (Hplain : k (a :: s) = Some rest ->
                     exists m, a :: s = m ++ rest /\ repeated c L m).
    { intros E. destruct (Hk _ _ E) as [m [Hm HL]]. exists m.
      split; [exact Hm|]. exists [], m. now repeat split. }
    destruct (c a) eqn:Ca; [|now apply Hplain].
    destruct (greedy_star c k s) eqn:E; [|now apply Hplain].
    injection H as ->.
    destruct (IH _ eq_refl) as [m [Hm [w [m' [-> [Hw HL]]]]]].
    exists (a :: w ++ m'). split; [now rewrite Hm|].
    exists (a :: w), m'. repeat split; [|exact HL]. simpl. now rewrite Ca.
Qed.

Lemma greedy_star_keeps c k s : k s <> None -> greedy_star c k s <> None.
Proof.
  intros H. destruct s as [|a s]; simpl; [exact H|].
  destruct (c a); [|exact H].
  destruct (greedy_star c k s); [discriminate | exact H].
Qed.

Lemma greedy_star_complete c k L :
  complete k L -> complete (greedy_star c k) (repeated c L).
Proof.
  intros Hk m rest [w [m' [-> [Hw HL]]]]. rewrite <- app_assoc.
  induction w as [|a w IH].
  - apply greedy_star_keeps. simpl. now apply Hk.
  - simpl in Hw. apply andb_true_iff in Hw as [Ca Hw]. simpl. rewrite Ca.
    specialize (IH Hw). destruct (greedy_star c k (w ++ m' ++ rest));
      [discriminate | congruence].
Qed.

Lemma match_here_sound r : sound (match_here r) (matches r).
Proof.
  induction r as [|[c q] r IH]; intros s rest H.
  - injection H as ->. now exists [].
  - destruct q; cbn [match_here] in H.
    + destruct s as [|a s]; [discriminate|].
      destruct (c a) eqn:Ca; [|discriminate].
      destruct (IH _ _ H) as [m [-> Hm]]. exists (a :: m).
      split; [reflexivity|]. now exists a, m.
    + destruct s as [|a s]; [discriminate|].
      destruct (c a) eqn:Ca; [|discriminate].
      destruct (greedy_star_sound c _ _ IH _ _ H) as [m [-> [w [m' [-> [Hw Hm]]]]]].
      exists (a :: w ++ m'). split; [reflexivity|].
      exists (a :: w), m'. repeat split; [discriminate | | exact Hm].
      simpl. now rewrite Ca.
    + destruct (lazy_star_sound c _ _ IH _ _ H) as [m [-> [w [m' [-> [Hw Hm]]]]]].
      exists (w ++ m'). split; [reflexivity|]. now exists w, m'.
Qed.

Lemma match_here_complete r : complete (match_here r) (matches r).
Proof.
  induction r as [|[c q] r IH]; intros m rest H.
  - discriminate.
  - destruct q; cbn [match_here matches] in *.
    + destruct H as [a [m' [-> [Ca Hm]]]]. simpl. rewrite Ca. now apply IH.
    + destruct H as [w [m' [-> [Hne [Hw Hm]]]]].
      destruct w as [|a w]; [contradiction|]. simpl in Hw.
      apply andb_true_iff in Hw as [Ca Hw]. simpl. rewrite Ca.
      apply (greedy_star_complete c _ _ IH). now exists w, m'.
    + apply (lazy_star_complete c _ _ IH).
      destruct H as [w [m' [-> [Hw Hm]]]]. now exists w, m'.
Qed.

Lemma matched_app m rest : matched (m ++ rest) rest = m.
Proof.
  unfold matched. rewrite length_app, Nat.add_sub.
  rewrite firstn_app, Nat.sub_diag, firstn_all. simpl. apply app_nil_r.
Qed.

(** [re.match] succeeds exactly when a prefix of the text is in the pattern. *)
Lemma re_match_iff r s :
  re_match r s <> None <-> exists m rest, s = m ++ rest /\ matches r m.
Proof.
  unfold re_match. split.
  - destruct (match_here r s) eqn:E; [intros _ | congruence].
    destruct (match_here_sound r _ _ E) as [m [Hs Hm]]. now exists m, p.
  - intros [m [rest [-> Hm]]]. pose proof (match_here_complete r _ rest Hm).
    destruct (match_here r (m ++ rest)); congruence.
Qed.

Lemma occurs_at_start r s rest :
  match_here r s = Some rest -> occurs_in r s [] (matched s rest) rest.
Proof.
  intros E. destruct (match_here_sound r _ _ E) as [m [-> Hm]].
  rewrite matched_app. now split.
Qed.

(** [re.search] returns an occurrence, and the one that starts first. *)
Lemma re_search_some r s pre m post :
  re_search r s = Some (pre, m, post) ->
  occurs_in r s pre m post /\ leftmost r s pre.
Proof.
  revert pre. induction s as [|a s IH]; intros pre H; simpl in H.
  - destruct (match_here r []) eqn:E; [|discriminate]. injection H as <- <- <-.
    split; [now apply occurs_at_start | intros ? ? ? _; simpl; lia].
  - destruct (match_here r (a :: s)) eqn:E.
    + injection H as <- <- <-.
      split; [now apply occurs_at_start | intros ? ? ? _; simpl; lia].
    + destruct (re_search r s) as [[[pre0 m0] post0]|] eqn:Es; [|discriminate].
      injection H as <- <- <-. destruct (IH _ eq_refl) as [[Hs Hm] Hleft].
      split; [split; [simpl; now rewrite Hs | exact Hm]|].
      intros pre' m' post' [Hs' Hm']. destruct pre' as [|x pre'].
      * exfalso. simpl in Hs'. rewrite Hs' in E.
        now apply (match_here_complete r _ post' Hm').
      * injection Hs' as -> Hs'. simpl.
        apply le_n_S. apply (Hleft pre' m' post'). now split.
Qed.

Lemma re_search_none r s :
  re_search r s = None -> forall pre m post, ~ occurs_in r s pre m post.
Proof.
  induction s as [|a s IH]; simpl; intros H pre m post [Hs Hm].
  - destruct (match_here r []) eqn:E; [discriminate|].
    destruct pre; [|discriminate]. simpl in Hs. rewrite Hs in E.
    now apply (match_here_complete r _ post Hm).
  - destruct (match_here r (a :: s)) eqn:E; [discriminate|].
    destruct pre as [|x pre].
    + simpl in Hs. rewrite Hs in E. now apply (match_here_complete r _ post Hm).
    + destruct (re_search r s) as [[[? ?] ?]|] eqn:Es; [discriminate|].
      injection Hs as -> Hs. apply (IH eq_refl pre m post). now split.
Qed.

Lemma re_search_finds r s pre m post :
  occurs_in r s pre m post ->
  exists pre0 m0 post0, re_search r s = Some (pre0, m0, post0).
Proof.
  intros H. destruct (re_search r s) as [[[pre0 m0] post0]|] eqn:E.
  - now exists pre0, m0, post0.
  - exfalso. exact (re_search_none _ _ E _ _ _ H).
Qed.

(** The first match [re.finditer] yields is the match of [re.search]. *)
Lemma re_finditer_head r s :
  hd_error (re_finditer r s) =
  match re_search r s with
  | Some (_, m, _) => Some m
  | None => None
  end.
Proof.
  unfold re_finditer. simpl.
  destruct (re_search r s) as [[[pre m] post]|]; reflexivity.
Qed.

End Matcher.

(** ** The scans of [re.finditer] and [re.sub] never use up their budget *)

Section Budget.

Lemma match_here_shorter r s rest :
  match_here r s = Some rest -> length rest <= length s.
Proof.
  intros E. destruct (match_here_sound r _ _ E) as [m [-> _]].
  rewrite length_app. lia.
Qed.

Lemma finditer_fuel_any r n : forall n' s,
  length s < n -> length s < n' -> finditer_fuel n r s = finditer_fuel n' r s.
Proof.
  induction n as [|n IH]; intros n' s Hn Hn'; [lia|].
  destruct n' as [|n']; [lia|]. simpl.
  destruct (re_search r s) as [[[pre m] post]|] eqn:E; [|reflexivity].
  destruct (re_search_some _ _ _ _ _ E) as [[Hs _] _].
  assert (Hlen : length s = length pre + (length m + length post))
    by (rewrite Hs, !length_app; reflexivity).
  f_equal. destruct m as [|x m].
  - destruct post as [|y post]; [reflexivity|].
    simpl in Hlen. apply IH; lia.
  - simpl in Hlen. apply IH; lia.
Qed.

Lemma re_finditer_fuel r n s :
  length s < n -> finditer_fuel n r s = re_finditer r s.
Proof. intros H. apply finditer_fuel_any; [exact H | lia]. Qed.

Lemma sub_fuel_any r repl n : forall n' s,
  length s < n -> length s < n' -> sub_fuel n r repl s = sub_fuel n' r repl s.
Proof.
  induction n as [|n IH]; intros n' s Hn Hn'; [lia|].
  destruct n' as [|n']; [lia|]. destruct s as [|a s]; [reflexivity|].
  cbn [sub_fuel]. destruct (match_here r (a :: s)) as [rest|] eqn:E.
  - destruct (Nat.ltb (length rest) (length (a :: s))) eqn:Hlt.
    + apply Nat.ltb_lt in Hlt. f_equal. simpl in *. apply IH; lia.
    + do 2 f_equal. simpl in *. apply IH; lia.
  - f_equal. simpl in *. apply IH; lia.
Qed.

Lemma re_sub_fuel r repl n s :
  length s < n -> sub_fuel n r repl s = re_sub r repl s.
Proof. intros H. apply sub_fuel_any; [exact H | lia]. Qed.

(** [re.sub] read as a scan: a match is replaced and skipped, any other
    character is copied. *)
Lemma re_sub_cons r repl a s :
  re_sub r repl (a :: s) =
  match match_here r (a :: s) with
  | Some rest =>
      if Nat.ltb (length rest) (length (a :: s))
      then repl ++ re_sub r repl rest
      else repl ++ a :: re_sub r repl s
  | None => a :: re_sub r repl s
  end.
Proof.
  unfold re_sub at 1. cbn [sub_fuel].
  destruct (match_here r (a :: s)) as [rest|] eqn:E.
  - pose proof (match_here_shorter _ _ _ E) as Hle.
    destruct (Nat.ltb (length rest) (length (a :: s))) eqn:Hlt.
    + apply Nat.ltb_lt in Hlt. f_equal. apply re_sub_fuel. lia.
    + reflexivity.
  - reflexivity.
Qed.

End Budget.

(** ** [json.loads] never uses up its budget *)

Section Decoder.

Ltac break_in H :=
  repeat match type of H with
         | context [match ?x with _ => _ end] => destruct x eqn:?
         | context [if ?x then _ else _] => destruct x eqn:?
         end.

Lemma skip_ws_length s : length (skip_ws s) <= length s.
Proof.
  induction s as [|c s IH]; simpl; [lia|].
  destruct (is_whitespace c); simpl; lia.
Qed.

Lemma scanstring_shorter n : forall s acc x rest,
  length s <= n -> scanstring s acc = Parsed x rest -> length rest < length s.
Proof.
  induction n as [|n IH]; intros s acc x rest Hn H.
  - destruct s; [discriminate | simpl in Hn; lia].
  - destruct s as [|c s]; [discriminate|]. cbn [scanstring] in H.
    break_in H; try discriminate;
      try (injection H as <- <-; simpl; lia);
      try (apply IH in H; simpl in *; lia).
Qed.

Lemma scanstring_total s acc : scanstring s acc <> OutOfFuel.
Proof.
  remember (length s) as n eqn:Hn. assert (Hle : length s <= n) by lia. clear Hn.
  revert s acc Hle. induction n as [|n IH]; intros s acc Hle.
  - destruct s; [discriminate | simpl in Hle; lia].
  - destruct s as [|c s]; [discriminate|]. cbn [scanstring].
    repeat match goal with
           | |- context [match ?x with _ => _ end] => destruct x eqn:?
           | |- context [if ?x then _ else _] => destruct x eqn:?
           end; try discriminate; apply IH; simpl in *; lia.
Qed.

Lemma span_length p s a b : span p s = (a, b) -> length b <= length s.
Proof.
  revert a b. induction s as [|c s IH]; intros a b H; simpl in H.
  - injection H as <- <-. simpl. lia.
  - destruct (p c).
    + destruct (span p s) as [a' b'] eqn:E. injection H as <- <-.
      specialize (IH _ _ eq_refl). simpl. lia.
    + injection H as <- <-. simpl. lia.
Qed.

Lemma scan_fraction_length s f r : scan_fraction s = (f, r) -> length r <= length s.
Proof.
  unfold scan_fraction. intros H.
  destruct s as [|dot [|d s']]; try (injection H as <- <-; simpl; lia).
  destruct (N.eqb dot (ch ".") && is_digit d); [|injection H as <- <-; simpl; lia].
  destruct (span is_digit s') as [ds r'] eqn:E. apply span_length in E.
  injection H as <- <-. simpl. lia.
Qed.

Lemma scan_exponent_length s x r : scan_exponent s = (x, r) -> length r <= length s.
Proof.
  unfold scan_exponent. intros H.
  destruct s as [|e s']; [injection H as <- <-; simpl; lia|].
  destruct (N.eqb e (ch "e") || N.eqb e (ch "E")); [|injection H as <- <-; simpl; lia].
  destruct s' as [|c t].
  - simpl in H. injection H as <- <-. simpl. lia.
  - destruct (N.eqb c (ch "+")); [|destruct (N.eqb c (ch "-"))];
      match type of H with
      | context [span ?p ?y] =>
          let E := fresh "E" in
          destruct (span p y) as [ds r'] eqn:E; apply span_length in E
      end; destruct ds; injection H as <- <-; simpl in *; lia.
Qed.

Lemma number_tail_shorter neg ds s v rest :
  number_tail neg ds s = Parsed v rest -> length rest <= length s.
Proof.
  unfold number_tail. intros H.
  destruct (scan_fraction s) as [f s1] eqn:E1. apply scan_fraction_length in E1.
  destruct (scan_exponent s1) as [x s2] eqn:E2. apply scan_exponent_length in E2.
  destruct f, x; injection H as <- <-; lia.
Qed.

Lemma number_tail_total neg ds s : number_tail neg ds s <> OutOfFuel.
Proof.
  unfold number_tail. destruct (scan_fraction s) as [f s1].
  destruct (scan_exponent s1) as [x s2]. destruct f, x; discriminate.
Qed.

Lemma scan_integer_shorter neg s v rest :
  scan_integer neg s = Parsed v rest -> length rest < length s.
Proof.
  unfold scan_integer. intros H. destruct s as [|c s2]; [discriminate|].
  destruct (N.eqb c (ch "0")).
  - apply number_tail_shorter in H. simpl. lia.
  - destruct (is_digit c); [|discriminate].
    destruct (span is_digit s2) as [ds s3] eqn:E. apply span_length in E.
    apply number_tail_shorter in H. simpl. lia.
Qed.

Lemma scan_integer_total neg s : scan_integer neg s <> OutOfFuel.
Proof.
  unfold scan_integer. destruct s as [|c s2]; [discriminate|].
  destruct (N.eqb c (ch "0")); [apply number_tail_total|].
  destruct (is_digit c); [|discriminate].
  destruct (span is_digit s2). apply number_tail_total.
Qed.

Lemma match_number_shorter s v rest :
  match_number s = Parsed v rest -> length rest < length s.
Proof.
  unfold match_number. intros H. destruct s as [|c s']; [discriminate|].
  destruct (N.eqb c (ch "-")); apply scan_integer_shorter in H; simpl in *; lia.
Qed.

Lemma match_number_total s : match_number s <> OutOfFuel.
Proof.
  unfold match_number. destruct s as [|c s']; [discriminate|].
  destruct (N.eqb c (ch "-")); apply scan_integer_total.
Qed.

Lemma constant_shorter name v s v' rest :
  constant name v s = Some (Parsed v' rest) -> name <> [] ->
  length rest < length s.
Proof.
  unfold constant. intros H Hne. destruct (startswith name s) eqn:E; [|discriminate].
  injection H as <- <-.
  apply startswith_spec in E as [t ->]. rewrite skipn_app, skipn_all, Nat.sub_diag.
  simpl. rewrite length_app. destruct name; [contradiction | simpl; lia].
Qed.

Lemma constant_total name v s r : constant name v s = Some r -> r <> OutOfFuel.
Proof.
  unfold constant. destruct (startswith name s); intros H;
    [injection H as <-|]; discriminate.
Qed.

Lemma scan_atom_shorter s v rest :
  scan_atom s = Parsed v rest -> length rest < length s.
Proof.
  unfold scan_atom. intros H.
  repeat match type of H with
         | context [constant ?n ?x ?y] =>
             let E := fresh "E" in destruct (constant n x y) eqn:E;
             [ subst; apply constant_shorter in E; [exact E | now vm_compute] | ]
         end.
  exact (match_number_shorter _ _ _ H).
Qed.

Lemma scan_atom_total s : scan_atom s <> OutOfFuel.
Proof.
  unfold scan_atom.
  repeat match goal with
         | |- context [constant ?n ?x ?y] =>
             let E := fresh "E" in destruct (constant n x y) eqn:E;
             [ now apply constant_total in E | ]
         end.
  apply match_number_total.
Qed.

Lemma scan_shorter fuel :
  (forall s v rest, scan_once fuel s = Parsed v rest -> length rest < length s) /\
  (forall acc s v rest,
      parse_members fuel acc s = Parsed v rest -> length rest < length s) /\
  (forall acc s v rest,
      parse_items fuel acc s = Parsed v rest -> length rest < length s).
Proof.
  induction fuel as [|n [IHs [IHm IHi]]]; [repeat split; discriminate|].
  repeat split.
  - intros s v rest H. destruct s as [|c s']; [discriminate|].
    cbn [scan_once] in H.
    destruct (N.eqb c 34).
    { destruct (scanstring s' []) eqn:E; try discriminate.
      injection H as <- <-. apply (scanstring_shorter (length s')) in E; [simpl; lia | lia]. }
    pose proof (skip_ws_length s') as Hws.
    destruct (N.eqb c (ch "{")).
    { destruct (skip_ws s') as [|c1 s1] eqn:E; [discriminate|].
      destruct (N.eqb c1 (ch "}")).
      - injection H as <- <-. simpl in *. lia.
      - apply IHm in H. simpl in *. lia. }
    destruct (N.eqb c (ch "[")).
    { destruct (skip_ws s') as [|c1 s1] eqn:E; [discriminate|].
      destruct (N.eqb c1 (ch "]")).
      - injection H as <- <-. simpl in *. lia.
      - apply IHi in H. simpl in *. lia. }
    exact (scan_atom_shorter _ _ _ H).
  - intros acc s v rest H. cbn [parse_members] in H.
    destruct s as [|c s1]; [discriminate|].
    destruct (N.eqb c 34); [|discriminate].
    destruct (scanstring s1 []) as [key s2| |] eqn:E; try discriminate.
    apply (scanstring_shorter (length s1)) in E; [|lia].
    pose proof (skip_ws_length s2) as Hw2.
    destruct (skip_ws s2) as [|c2 s3]; [discriminate|].
    destruct (N.eqb c2 (ch ":")); [|discriminate].
    pose proof (skip_ws_length s3) as Hw3.
    destruct (scan_once n (skip_ws s3)) as [x s4| |] eqn:Ev; try discriminate.
    apply IHs in Ev. pose proof (skip_ws_length s4) as Hw4.
    destruct (skip_ws s4) as [|c5 s5]; [discriminate|].
    destruct (N.eqb c5 (ch "}")).
    + injection H as <- <-. simpl in *. lia.
    + destruct (N.eqb c5 (ch ",")); [|discriminate].
      apply IHm in H. pose proof (skip_ws_length s5). simpl in *. lia.
  - intros acc s v rest H. cbn [parse_items] in H.
    destruct (scan_once n s) as [x s1| |] eqn:Ev; try discriminate.
    apply IHs in Ev. pose proof (skip_ws_length s1) as Hw1.
    destruct (skip_ws s1) as [|c2 s2]; [discriminate|].
    destruct (N.eqb c2 (ch "]")).
    + injection H as <- <-. simpl in *. lia.
    + destruct (N.eqb c2 (ch ",")); [|discriminate].
      apply IHi in H. pose proof (skip_ws_length s2). simpl in *. lia.
Qed.

Lemma scan_total fuel :
  (forall s, 2 * length s < fuel -> scan_once fuel s <> OutOfFuel) /\
  (forall acc s, 2 * length s + 1 < fuel -> parse_members fuel acc s <> OutOfFuel) /\
  (forall acc s, 2 * length s + 1 < fuel -> parse_items fuel acc s <> OutOfFuel).
Proof.
  induction fuel as [|n [IHs [IHm IHi]]]; [repeat split; intros; lia|].
  destruct (scan_shorter n) as [Ss [Sm Si]].
  repeat split.
  - intros s Hn. destruct s as [|c s']; [discriminate|]. cbn [scan_once].
    destruct (N.eqb c 34).
    { pose proof (scanstring_total s' []).
      destruct (scanstring s' []); congruence. }
    pose proof (skip_ws_length s') as Hws.
    destruct (N.eqb c (ch "{")).
    { destruct (skip_ws s') as [|c1 s1] eqn:E; [discriminate|].
      destruct (N.eqb c1 (ch "}")); [discriminate|].
      apply IHm. simpl in *. lia. }
    destruct (N.eqb c (ch "[")).
    { destruct (skip_ws s') as [|c1 s1] eqn:E; [discriminate|].
      destruct (N.eqb c1 (ch "]")); [discriminate|].
      apply IHi. simpl in *. lia. }
    apply scan_atom_total.
  - intros acc s Hn. cbn [parse_members].
    destruct s as [|c s1]; [discriminate|].
    destruct (N.eqb c 34); [|discriminate].
    pose proof (scanstring_total s1 []) as Ht.
    destruct (scanstring s1 []) as [key s2| |] eqn:E; try congruence.
    apply (scanstring_shorter (length s1)) in E; [|lia].
    pose proof (skip_ws_length s2) as Hw2.
    destruct (skip_ws s2) as [|c2 s3]; [discriminate|].
    destruct (N.eqb c2 (ch ":")); [|discriminate].
    pose proof (skip_ws_length s3) as Hw3.
    assert (Hv : scan_once n (skip_ws s3) <> OutOfFuel)
      by (apply IHs; simpl in *; lia).
    destruct (scan_once n (skip_ws s3)) as [x s4| |] eqn:Ev; try congruence.
    apply Ss in Ev. pose proof (skip_ws_length s4) as Hw4.
    destruct (skip_ws s4) as [|c5 s5]; [discriminate|].
    destruct (N.eqb c5 (ch "}")); [discriminate|].
    destruct (N.eqb c5 (ch ",")); [|discriminate].
    apply IHm. pose proof (skip_ws_length s5). simpl in *. lia.
  - intros acc s Hn. cbn [parse_items].
    assert (Hv : scan_once n s <> OutOfFuel) by (apply IHs; lia).
    destruct (scan_once n s) as [x s1| |] eqn:Ev; try congruence.
    apply Ss in Ev. pose proof (skip_ws_length s1) as Hw1.
    destruct (skip_ws s1) as [|c2 s2]; [discriminate|].
    destruct (N.eqb c2 (ch "]")); [discriminate|].
    destruct (N.eqb c2 (ch ",")); [|discriminate].
    apply IHi. pose proof (skip_ws_length s2). simpl in *. lia.
Qed.

Lemma loads_fuel_total s : loads_fuel (S (2 * length s)) s <> OutOfFuel.
Proof.
  unfold loads_fuel. destruct (startswith [65279%N] s); [discriminate|].
  pose proof (skip_ws_length s) as Hws.
  assert (Hv : scan_once (S (2 * length s)) (skip_ws s) <> OutOfFuel)
    by (apply scan_total; lia).
  destruct (scan_once (S (2 * length s)) (skip_ws s)); try congruence.
  destruct (skip_ws rest); discriminate.
Qed.

(** [loads] fails only on a decoding error. *)
Lemma loads_none s :
  loads s = None <-> loads_fuel (S (2 * length s)) s = Invalid.
Proof.
  unfold loads. pose proof (loads_fuel_total s) as Ht.
  destruct (loads_fuel (S (2 * length s)) s); split; congruence.
Qed.

End Decoder.

(** ** The JSON block of a completion *)

Section JsonBlock.

Lemma is_char_eq a c : is_char a c = true <-> c = ch a.
Proof. unfold is_char, ch. apply N.eqb_eq. Qed.

Lemma is_char_neq a c : c <> ch a -> is_char a c = false.
Proof.
  intros H. destruct (is_char a c) eqn:E; [|reflexivity].
  apply is_char_eq in E. contradiction.
Qed.

(** From an opening brace the lazy loop stops at the first closing brace. *)
Lemma block_closes mid post :
  ~ In (ch "}") mid ->
  lazy_star (fun _ => true) (match_here [(is_char "}", One)])
    (mid ++ ch "}" :: post) = Some post.
Proof.
  induction mid as [|a mid IH]; intros Hmid.
  - reflexivity.
  - rewrite lazy_star_unfold. cbn [match_here app].
    rewrite is_char_neq by (intros ->; apply Hmid; now left).
    apply IH. intros Hin. apply Hmid. now right.
Qed.

Lemma block_match_here mid post :
  ~ In (ch "}") mid ->
  match_here json_block_re (ch "{" :: mid ++ ch "}" :: post) = Some post.
Proof. intros Hmid. cbn [match_here json_block_re]. now apply block_closes. Qed.

Lemma no_block_here a s : a <> ch "{" -> match_here json_block_re (a :: s) = None.
Proof. intros H. cbn [match_here json_block_re]. now rewrite is_char_neq. Qed.

Lemma block_search pre mid post :
  ~ In (ch "{") pre -> ~ In (ch "}") mid ->
  re_search json_block_re (pre ++ ch "{" :: mid ++ ch "}" :: post) =
  Some (pre, ch "{" :: mid ++ [ch "}"], post).
Proof.
  intros Hpre Hmid. induction pre as [|a pre IH].
  - cbn [app re_search]. rewrite block_match_here by exact Hmid.
    do 3 f_equal.
    change (ch "{" :: mid ++ ch "}" :: post)
      with ((ch "{" :: mid) ++ [ch "}"] ++ post).
    rewrite app_assoc. apply matched_app.
  - cbn [app re_search].
    rewrite no_block_here by (intros ->; apply Hpre; now left).
    rewrite IH; [reflexivity|]. intros Hin. apply Hpre. now right.
Qed.

(** What the pattern denotes: an opening brace, anything, a closing brace. *)
Lemma block_matches m :
  matches json_block_re m <-> exists w, m = ch "{" :: w ++ [ch "}"].
Proof.
  cbn [matches json_block_re]. split.
  - intros (a & m1 & -> & Ha & w & m2 & -> & _ & b & m3 & -> & Hb & ->).
    apply is_char_eq in Ha, Hb. subst. now exists w.
  - intros [w ->]. exists (ch "{"), (w ++ [ch "}"]).
    repeat split. exists w, [ch "}"]. repeat split.
    + now apply forallb_forall.
    + now exists (ch "}"), [].
Qed.

Lemma split_first (c : N) l :
  In c l -> exists a b, l = a ++ c :: b /\ ~ In c a.
Proof.
  induction l as [|x l IH]; intros Hin; [contradiction|].
  destruct (N.eq_dec x c) as [->|Hne].
  - exists [], l. split; [reflexivity | intros []].
  - destruct Hin as [->|Hin]; [contradiction|].
    destruct (IH Hin) as [a [b [-> Ha]]]. exists (x :: a), b.
    split; [reflexivity|]. intros [E|E]; [contradiction | now apply Ha].
Qed.

(** After the first occurrence of [c] comes all that follows any other. *)
Lemma after_first (c : N) a b : forall p q,
  a ++ c :: b = p ++ c :: q -> ~ In c a -> exists t, b = t ++ q.
Proof.
  induction a as [|x a IH]; intros p q H Ha.
  - destruct p as [|y p]; simpl in H.
    + exists []. simpl. congruence.
    + exists (p ++ [c]). rewrite <- app_assoc. simpl. congruence.
  - destruct p as [|y p]; simpl in H.
    + exfalso. apply Ha. left. congruence.
    + apply (IH p q); [congruence|]. intros Hin. apply Ha. now right.
Qed.

(** A text with a block reads in one way as: no opening brace, an opening
    brace, no closing brace, a closing brace, the rest. *)
Lemma has_json_block_first s :
  has_json_block s ->
  exists pre mid post,
    s = pre ++ ch "{" :: mid ++ ch "}" :: post /\
    ~ In (ch "{") pre /\ ~ In (ch "}") mid.
Proof.
  intros [pre0 [mid0 [post0 Hs]]].
  assert (Hin : In (ch "{") s) by (rewrite Hs; apply in_elt).
  destruct (split_first _ _ Hin) as [pre [b [Hb Hpre]]].
  assert (Hb' : pre ++ ch "{" :: b = pre0 ++ ch "{" :: mid0 ++ ch "}" :: post0)
    by congruence.
  destruct (after_first _ _ _ _ _ Hb' Hpre) as [t Ht].
  assert (Hin2 : In (ch "}") b).
  { rewrite Ht. apply in_or_app. right. apply in_elt. }
  destruct (split_first _ _ Hin2) as [mid [post [-> Hmid]]].
  now exists pre, mid, post.
Qed.

Lemma no_block_no_match s : ~ has_json_block s -> json_matches s = [].
Proof.
  intros Hno. pose proof (re_finditer_head json_block_re s) as Hhd.
  fold (json_matches s) in Hhd.
  destruct (re_search json_block_re s) as [[[pre m] post]|] eqn:E.
  - exfalso. apply Hno. destruct (re_search_some _ _ _ _ _ E) as [[Hs Hm] _].
    apply block_matches in Hm as [w ->]. exists pre, w, post.
    rewrite Hs. simpl. now rewrite <- app_assoc.
  - destruct (json_matches s); [reflexivity | discriminate].
Qed.

End JsonBlock.

(** ** From the completion to the report *)

Section Pipeline.
Context {rt : Runtime}.

Lemma build_prompt_schema text :
  build_extraction_prompt text extract_info_function =
  Ok (strip (prompt_head ++ dumps repr_float 2 schema_properties ++
             prompt_middle ++ firstn 2000 text ++ prompt_tail)).
Proof. reflexivity. Qed.

Lemma extract_info_unfold client pdf_file :
  extract_info_from_pdf client pdf_file =
  match build_extraction_prompt (pdf_text pdf_file) extract_info_function with
  | Ok prompt =>
      parse_and_reconcile (client prompt)
        (extract_pdf_links (pdf_pages pdf_file)) (pdf_text pdf_file)
  | Raise e => Raise e
  end.
Proof. reflexivity. Qed.

Lemma parse_without_block response links text :
  ~ has_json_block response ->
  parse_and_reconcile response links text = Ok no_json_message.
Proof.
  intros H. unfold parse_and_reconcile. now rewrite no_block_no_match.
Qed.

(** A report starts with its first label. *)
Lemma pretty_starts safe_fn report :
  pretty safe_fn = Ok report -> exists t, report = py "Name: " ++ t.
Proof.
  unfold pretty, bind. intros H.
  repeat match type of H with
         | context [match safe_fn ?f with _ => _ end] =>
             destruct (safe_fn f); [|discriminate]
         end.
  injection H as <-. eexists. reflexivity.
Qed.

End Pipeline.

(** ** The reconciler *)

Section Reconciler.
Context {rt : Runtime}.

Lemma find_profile_first platform before u after :
  Forall (fun l => contains platform (str_lower l) = false) before ->
  contains platform (str_lower u) = true ->
  find_profile_url_from_links (before ++ u :: after) platform = u.
Proof.
  intros Hbefore Hu. induction Hbefore as [|l before Hl _ IH]; simpl.
  - now rewrite Hu.
  - now rewrite Hl.
Qed.

Lemma lower_NA : str_lower (py "NA") = py "na".
Proof. now rewrite str_lower_ascii. Qed.

(** The sentinel is no profile link. *)
Lemma profile_link_not_NA platform u :
  platform = py "linkedin" \/ platform = py "github" ->
  contains platform (str_lower u) = true -> u <> py "NA".
Proof.
  intros Hp Hu ->. rewrite lower_NA in Hu.
  destruct Hp as [-> | ->]; vm_compute in Hu; discriminate.
Qed.

Lemma safe_missing data links text field :
  missing (model_value data field) = true ->
  safe data links text field = Ok (fallback links text field).
Proof. intros H. unfold safe. now rewrite H. Qed.

Lemma safe_profile data links text platform u :
  platform = py "linkedin" \/ platform = py "github" ->
  find_profile_url_from_links links platform = u -> u <> py "NA" ->
  safe data links text platform = Ok u.
Proof.
  intros Hp Hu Hna. unfold safe, fallback.
  assert (Hpf : is_profile_field platform = true)
    by (destruct Hp as [-> | ->]; reflexivity).
  rewrite Hpf, Hu, (str_eqb_neq _ _ Hna).
  now destruct (missing (model_value data platform)).
Qed.

Lemma safe_email_present data links text s :
  model_value data (py "email") = JStr s -> missing (JStr s) = false ->
  safe data links text (py "email") =
  Ok (match re_match email_shape_re s with
      | Some _ => s
      | None => find_email text
      end).
Proof.
  intros Hv Hm. unfold safe. rewrite Hv, Hm.
  change (is_profile_field (py "email")) with false.
  change (str_eqb (py "email") (py "email")) with true. cbn [andb].
  now destruct (re_match email_shape_re s).
Qed.

(** What [find_email] returns: the occurrence of the pattern that starts
    first, or the sentinel when the text has none. *)
Lemma find_email_first text :
  (exists pre m post, occurs_in email_re text pre m post) ->
  exists pre post,
    occurs_in email_re text pre (find_email text) post /\
    leftmost email_re text pre.
Proof.
  intros [pre [m [post H]]]. unfold find_email.
  destruct (re_search_finds _ _ _ _ _ H) as [pre0 [m0 [post0 E]]].
  rewrite E. exists pre0, post0. now apply re_search_some.
Qed.

Lemma find_email_none text :
  ~ (exists pre m post, occurs_in email_re text pre m post) ->
  find_email text = py "NA".
Proof.
  intros H. unfold find_email.
  destruct (re_search email_re text) as [[[pre m] post]|] eqn:E; [|reflexivity].
  exfalso. apply H. exists pre, m, post. now apply re_search_some.
Qed.

(** The shape check, read off the pattern. *)
Lemma email_shape_matches m :
  matches email_shape_re m <->
  exists a b c,
    m = a ++ ch "@" :: b ++ ch "." :: c /\
    a <> [] /\ b <> [] /\ c <> [] /\
    forallb not_newline (a ++ b ++ c) = true.
Proof.
  cbn [matches email_shape_re]. split.
  - intros (a & m1 & -> & Ha & Hfa & x & m2 & -> & Hx & b & m3 & -> & Hb & Hfb
            & y & m4 & -> & Hy & c & m5 & -> & Hc & Hfc & ->).
    apply is_char_eq in Hx, Hy. subst. exists a, b, c.
    rewrite app_nil_r. repeat split; try assumption.
    rewrite !forallb_app, Hfa, Hfb, Hfc. reflexivity.
  - intros (a & b & c & -> & Ha & Hb & Hc & Hf).
    rewrite !forallb_app in Hf.
    apply andb_true_iff in Hf as [Hfa Hf]. apply andb_true_iff in Hf as [Hfb Hfc].
    exists a, (ch "@" :: b ++ ch "." :: c). repeat split; try assumption.
    exists (ch "@"), (b ++ ch "." :: c). repeat split.
    exists b, (ch "." :: c). repeat split; try assumption.
    exists (ch "."), c. repeat split.
    exists c, []. rewrite app_nil_r. now repeat split.
Qed.

Lemma email_shape_iff s : re_match email_shape_re s <> None <-> email_shaped s.
Proof.
  rewrite re_match_iff. unfold email_shaped. split.
  - intros (m & rest & -> & Hm).
    apply email_shape_matches in Hm as (a & b & c & -> & H).
    exists a, b, c, rest. split; [|exact H].
    rewrite <- !app_assoc. simpl. now rewrite <- !app_assoc.
  - intros (a & b & c & rest & -> & H).
    exists (a ++ ch "@" :: b ++ ch "." :: c), rest. split.
    + rewrite <- !app_assoc. simpl. now rewrite <- !app_assoc.
    + apply email_shape_matches. now exists a, b, c.
Qed.


End Reconciler.

(** ** The prompt *)

Section Prompt.
Context {rt : Runtime}.

Lemma lstrip_stops c t : is_space c = false -> lstrip (c :: t) = c :: t.
Proof. intros H. simpl. now rewrite H. Qed.

Lemma lstrip_spaces ws c t :
  forallb is_space ws = true -> is_space c = false ->
  lstrip (ws ++ c :: t) = c :: t.
Proof.
  intros Hws Hc. induction ws as [|x ws IH].
  - now apply lstrip_stops.
  - simpl in Hws. apply andb_true_iff in Hws as [Hx Hws]. simpl.
    rewrite Hx. now apply IH.
Qed.

Lemma forallb_rev (p : N -> bool) l : forallb p (rev l) = forallb p l.
Proof.
  induction l as [|x l IH]; [reflexivity|]. simpl.
  rewrite forallb_app, IH. simpl. rewrite andb_true_r. apply andb_comm.
Qed.

Lemma rstrip_spaces body c ws :
  is_space c = false -> forallb is_space ws = true ->
  rstrip (body ++ c :: ws) = body ++ [c].
Proof.
  intros Hc Hws. unfold rstrip. rewrite rev_app_distr. simpl.
  rewrite <- app_assoc. simpl.
  rewrite lstrip_spaces by (rewrite ?forallb_rev; assumption).
  change (c :: rev body) with ([c] ++ rev body).
  now rewrite rev_app_distr, rev_involutive.
Qed.

(** [strip] takes the newline before the template and the newline and the
    four spaces after it, and nothing of what lies between. *)
Lemma strip_template body :
  strip (prompt_head ++ body ++ prompt_tail) = prompt_intro ++ body ++ prompt_outro.
Proof.
  unfold strip.
  assert (Hl : lstrip (prompt_head ++ body ++ prompt_tail)
               = prompt_intro ++ body ++ prompt_tail) by reflexivity.
  rewrite Hl.
  change prompt_tail
    with ((nl ++ py "--- END TEXT --") ++ ch "-" :: (nl ++ py "    ")).
  rewrite !app_assoc.
  rewrite rstrip_spaces by reflexivity.
  rewrite <- !app_assoc. reflexivity.
Qed.

Lemma build_prompt_ok text schema parameters properties :
  subscript schema (py "parameters") = Ok parameters ->
  subscript parameters (py "properties") = Ok properties ->
  build_extraction_prompt text schema =
  Ok (prompt_intro ++ dumps repr_float 2 properties ++ prompt_middle ++
      firstn 2000 text ++ prompt_outro).
Proof.
  intros H1 H2. unfold build_extraction_prompt. rewrite H1. cbn [bind].
  rewrite H2. cbn [bind]. f_equal.
  generalize (firstn 2000 text) as prefix. intros prefix.
  generalize (dumps repr_float 2 properties) as d. intros d.
  pose proof (strip_template (d ++ prompt_middle ++ prefix)) as Hs.
  rewrite <- !app_assoc in Hs. exact Hs.
Qed.

End Prompt.

(** ** The report *)

Section Report.
Context {rt : Runtime}.

Lemma pretty_ok safe_fn values :
  (forall f, In f schema_fields -> safe_fn f = Ok (values f)) ->
  pretty safe_fn = Ok (join nl (map (report_line values) labels)).
Proof.
  intros H. unfold pretty.
  rewrite !H by (vm_compute; tauto). reflexivity.
Qed.

Lemma split_lines_one x : ~ In 10%N x -> split_lines x = [x].
Proof.
  induction x as [|c x IH]; intros H; [reflexivity|]. simpl.
  destruct (N.eqb c 10) eqn:E.
  - apply N.eqb_eq in E. exfalso. apply H. now left.
  - rewrite IH; [reflexivity|]. intros Hin. apply H. now right.
Qed.

Lemma split_lines_app x rest :
  ~ In 10%N x -> split_lines (x ++ 10%N :: rest) = x :: split_lines rest.
Proof.
  induction x as [|c x IH]; intros H; [reflexivity|]. simpl.
  destruct (N.eqb c 10) eqn:E.
  - apply N.eqb_eq in E. exfalso. apply H. now left.
  - rewrite IH; [reflexivity|]. intros Hin. apply H. now right.
Qed.

Lemma split_lines_join parts :
  parts <> [] -> Forall (fun x => ~ In 10%N x) parts ->
  split_lines (join nl parts) = parts.
Proof.
  intros Hne H. induction H as [|x parts Hx Hparts IH]; [contradiction|].
  destruct parts as [|y parts].
  - now apply split_lines_one.
  - change (join nl (x :: y :: parts)) with (x ++ 10%N :: join nl (y :: parts)).
    rewrite split_lines_app by exact Hx.
    f_equal. apply IH. discriminate.
Qed.

Lemma lookup_permutation data data' :
  NoDup (map fst data) -> Permutation data data' ->
  forall k, lookup data k = lookup data' k.
Proof.
  intros Hnd Hp. induction Hp as [|[k0 v0] d d' Hp IH|[k1 v1] [k2 v2] d|d d' d'' Hp1 IH1 Hp2 IH2];
    intros k.
  - reflexivity.
  - simpl. destruct (str_eqb k0 k); [reflexivity|].
    apply IH. now inversion Hnd.
  - simpl. destruct (str_eqb k2 k) eqn:E2, (str_eqb k1 k) eqn:E1; try reflexivity.
    apply str_eqb_spec in E1, E2. subst. exfalso.
    inversion Hnd as [|? ? Hnotin _]. apply Hnotin. now left.
  - rewrite IH1 by exact Hnd. apply IH2.
    apply (Permutation_NoDup (Permutation_map fst Hp1) Hnd).
Qed.

Lemma safe_lookup_ext data data' links text field :
  (forall k, lookup data k = lookup data' k) ->
  safe data links text field = safe data' links text field.
Proof.
  intros H. unfold safe, model_value, dict_get. now rewrite H.
Qed.

Lemma pretty_ext f g : (forall x, f x = g x) -> pretty f = pretty g.
Proof. intros H. unfold pretty. now rewrite !H. Qed.

End Report.

(** ** Facts the statements rest on *)

Section Support.
Context {rt : Runtime}.

(** A pattern that starts with a mandatory character, as all patterns of
    app.py do, never matches the empty string: the scans of [re.finditer]
    and [re.sub] always move on past a match. *)
Lemma match_takes_a_character c q r s rest :
  q <> LazyStar -> match_here ((c, q) :: r) s = Some rest ->
  length rest < length s.
Proof.
  intros Hq H. destruct (match_here_sound _ _ _ H) as [m [-> Hm]].
  rewrite length_app. destruct q; [| |contradiction]; cbn [matches] in Hm.
  - destruct Hm as (a & m' & -> & _). simpl. lia.
  - destruct Hm as (w & m' & -> & Hw & _).
    destruct w; [contradiction|]. simpl. lia.
Qed.

(** What counts as missing besides the falsy values: an absent key, the
    empty string and the three sentinels. *)
Lemma absent_is_missing data field :
  lookup data field = None -> missing (model_value data field) = true.
Proof. intros H. unfold model_value, dict_get. now rewrite H. Qed.

Lemma sentinel_is_missing data field s :
  lookup data field = Some (JStr s) ->
  In s [[]; py "NA"; py "None"; py "null"] ->
  missing (model_value data field) = true.
Proof.
  intros H Hs. unfold model_value, dict_get. rewrite H.
  cbn [In] in Hs. decompose [or] Hs; subst; try reflexivity. contradiction.
Qed.

(** Apart from a model email that is present and not a string, [safe]
    returns a string for every field. *)
Lemma safe_returns data links text field :
  (field = py "email" ->
   missing (model_value data field) = true \/
   exists s, model_value data field = JStr s) ->
  exists value, safe data links text field = Ok value.
Proof.
  intros He. unfold safe.
  destruct (missing (model_value data field)) eqn:Hm; [eexists; reflexivity|].
  destruct (is_profile_field field &&
            negb (str_eqb (find_profile_url_from_links links field) (py "NA")));
    [eexists; reflexivity|].
  destruct (str_eqb field (py "email")) eqn:E; [|eexists; reflexivity].
  apply str_eqb_spec in E. destruct (He E) as [H | [s Hs]]; [congruence|].
  rewrite Hs. destruct (re_match email_shape_re s); eexists; reflexivity.
Qed.

(** The email pattern, read off: a local part, an at sign, a domain, a dot,
    a tail, each a run of the characters of its set. *)
Lemma email_matches m :
  matches email_re m <->
  exists loc dom tail,
    m = loc ++ ch "@" :: dom ++ ch "." :: tail /\
    loc <> [] /\ dom <> [] /\ tail <> [] /\
    forallb (fun c => alnum c || is_char "_" c || is_char "." c ||
                      is_char "+" c || is_char "-" c) loc = true /\
    forallb (fun c => alnum c || is_char "-" c) dom = true /\
    forallb (fun c => alnum c || is_char "-" c || is_char "." c) tail = true.
Proof.
  cbn [matches email_re]. split.
  - intros (a & m1 & -> & Ha & Hfa & x & m2 & -> & Hx & b & m3 & -> & Hb & Hfb
            & y & m4 & -> & Hy & c & m5 & -> & Hc & Hfc & ->).
    apply is_char_eq in Hx, Hy. subst. exists a, b, c.
    rewrite app_nil_r. now repeat split.
  - intros (a & b & c & -> & Ha & Hb & Hc & Hfa & Hfb & Hfc).
    exists a, (ch "@" :: b ++ ch "." :: c). repeat split; try assumption.
    exists (ch "@"), (b ++ ch "." :: c). repeat split.
    exists b, (ch "." :: c). repeat split; try assumption.
    exists (ch "."), c. repeat split.
    exists c, []. rewrite app_nil_r. now repeat split.
Qed.

(** The scenarios of the specification. *)
Example scenario_email_from_text :
  parse_and_reconcile (pyq "{'email':'NA','name':'Jane Doe'}") []
    (py "Contact: jane@example.com") =
  Ok (join nl
        [py "Name: Jane Doe"; py "Mobile Number: NA"; py "Address: NA";
         py "Email: jane@example.com"; py "Linkedin: NA"; py "Github: NA";
         py "Experience Years: NA"]).
Proof. vm_compute. reflexivity. Qed.

Example scenario_github_from_links :
  safe [(py "github", JStr (py "NA"))] [py "https://github.com/janedoe"] []
    (py "github") = Ok (py "https://github.com/janedoe").
Proof.
  rewrite safe_missing by reflexivity. unfold fallback.
  change (is_profile_field (py "github")) with true. cbv iota. f_equal.
  apply (find_profile_first (py "github") [] _ []); [constructor|].
  rewrite str_lower_ascii by reflexivity. reflexivity.
Qed.

Example scenario_trimmed_value :
  safe [(py "name", JObject [(py "value", JStr (py "  Jane Doe "))])] [] []
    (py "name") = Ok (py "Jane Doe").
Proof. vm_compute. reflexivity. Qed.

End Support.

(** * The claims *)

Lemma no_block_by_search s :
  re_search json_block_re s = None -> ~ has_json_block s.
Proof.
  intros E [pre [mid [post Hs]]].
  apply (re_search_none _ _ E pre (ch "{" :: mid ++ [ch "}"]) post).
  split.
  - rewrite Hs. simpl. now rewrite <- app_assoc.
  - apply block_matches. now exists mid.
Qed.

(** C1.  When the links of the document hold a URI whose lowered text
    contains "linkedin", the reconciled linkedin field is the first such URI
    in link order, whatever the decoded model output holds for linkedin,
    present or missing; the same for github with "github". *)
Theorem link_overrides_model (rt : Runtime) (data : dict)
    (before : list pystr) (u : pystr) (after : list pystr)
    (text platform : pystr) :
  platform = py "linkedin" \/ platform = py "github" ->
  Forall (fun l => contains platform (str_lower l) = false) before ->
  contains platform (str_lower u) = true ->
  safe data (before ++ u :: after) text platform = Ok u.
Proof.
  intros Hp Hbefore Hu. apply safe_profile.
  - exact Hp.
  - now apply find_profile_first.
  - now apply (profile_link_not_NA platform).
Qed.

Lemma link_overrides_model_witness :
  let data := [(py "linkedin", JStr (py "https://linkedin.com/in/guessed"))] in
  let before := [py "https://example.com/cv"] in
  let u := py "https://www.LinkedIn.com/in/jane" in
  let after := [py "https://linkedin.com/in/other"] in
  (py "linkedin" = py "linkedin" \/ py "linkedin" = py "github") /\
  Forall (fun l => contains (py "linkedin") (str_lower l) = false) before /\
  contains (py "linkedin") (str_lower u) = true /\
  safe (rt := ascii_runtime) data (before ++ u :: after) (py "resume")
    (py "linkedin") = Ok u.
Proof.
  assert (H1 : py "linkedin" = py "linkedin" \/ py "linkedin" = py "github")
    by (left; reflexivity).
  assert (H2 : Forall
                 (fun l => contains (py "linkedin") (str_lower l) = false)
                 [py "https://example.com/cv"])
    by (constructor; [vm_compute; reflexivity | constructor]).
  assert (H3 : contains (py "linkedin")
                 (str_lower (py "https://www.LinkedIn.com/in/jane")) = true)
    by (vm_compute; reflexivity).
  split; [exact H1 | split; [exact H2 | split; [exact H3 |]]].
  exact (link_overrides_model ascii_runtime _ _ _ _ _ _ H1 H2 H3).
Defined.

(** C2.  Reconciliation raises on a decoded object whose email is a number:
    for the completion {"email": 5} the call [safe('email')] ends in a
    TypeError and so does the whole reconciliation, where the claim wants a
    string for every field. *)
Theorem non_string_email_raises (rt : Runtime) :
  loads (pyq "{'email': 5}") = Some (JObject [(py "email", JInt 5)]) /\
  safe [(py "email", JInt 5)] [] [] (py "email") = Raise TypeError /\
  safe [(py "email", JInt 5)] [] [] (py "name") = Ok (py "NA") /\
  parse_and_reconcile (pyq "{'email': 5}") [] [] = Raise TypeError.
Proof. repeat split; vm_compute; reflexivity. Qed.



(** C4.  The sanitizer turns a valid block into an invalid one: in
    {"address":"C:\\new\n"} the second backslash of the escaped backslash
    and the n after it are taken for an escaped newline, what is left is the
    invalid escape of a backslash and a space, and the request ends in
    "Failed to parse JSON". *)
Theorem sanitize_breaks_escaped_backslash (rt : Runtime) :
  let block := pyq "{'address':'C:\\new\n'}" in
  json_matches block = [block] /\
  loads block = Some (JObject [(py "address", JStr (py "C:\new" ++ nl))]) /\
  sanitize block = pyq "{'address':'C:\ ew '}" /\
  loads_fuel (S (2 * length (sanitize block))) (sanitize block) = Invalid /\
  loads (sanitize block) = None /\
  parse_and_reconcile block [] [] =
  Ok (py "Failed to parse JSON: " ++ decode_error_text (sanitize block) ++
      nl ++ nl ++ py "Model Output:" ++ nl ++ block).
Proof. repeat split; vm_compute; reflexivity. Qed.

(** C5, as the claim words the check.  The model's email "a.b@c" contains an
    at sign and a dot, yet it is not kept: the reconciled email is the
    address found in the text. *)
Lemma email_containing_at_and_dot_not_kept :
  let v := py "a.b@c" in
  contains (py "@") v && contains (py ".") v = true /\
  missing (JStr v) = false /\
  safe (rt := ascii_runtime) [(py "email", JStr v)] [] (py "mail x@y.z")
    (py "email") = Ok (py "x@y.z") /\
  py "x@y.z" <> v.
Proof. repeat split; vm_compute; congruence. Qed.

(** C5, amended.  When the model's email is a string that is present, it is
    kept as it is if it has the shape of [.+@.+\..+] from its first
    character on (something, an at sign, something, a dot, something, all
    without a newline); otherwise the reconciled email is what the search of
    the email pattern over the whole text returns. *)
Theorem present_email_checked (rt : Runtime) (data : dict)
    (links : list pystr) (text s : pystr) :
  model_value data (py "email") = JStr s ->
  missing (JStr s) = false ->
  safe data links text (py "email") =
    Ok (match re_match email_shape_re s with
        | Some _ => s
        | None => find_email text
        end) /\
  (re_match email_shape_re s <> None <-> email_shaped s).
Proof.
  intros Hv Hm. split.
  - now apply safe_email_present.
  - apply email_shape_iff.
Qed.

Lemma present_email_checked_witness :
  let data := [(py "email", JStr (py "jane at example"))] in
  let text := py "Contact: jane@example.com" in
  model_value data (py "email") = JStr (py "jane at example") /\
  missing (JStr (py "jane at example")) = false /\
  safe (rt := ascii_runtime) data [] text (py "email") =
    Ok (py "jane@example.com").
Proof.
  assert (H1 : model_value [(py "email", JStr (py "jane at example"))]
                 (py "email") = JStr (py "jane at example")) by reflexivity.
  assert (H2 : missing (JStr (py "jane at example")) = false) by reflexivity.
  split; [exact H1 | split; [exact H2 |]].
  exact (proj1 (present_email_checked ascii_runtime _ []
                  (py "Contact: jane@example.com") _ H1 H2)).
Defined.

(** C6.  When the model's email is missing, the reconciled email is what
    the search of the email pattern over the whole text returns: the
    occurrence that starts first when the text has one, "NA" when it has
    none. *)
Theorem missing_email_falls_back (rt : Runtime) (data : dict)
    (links : list pystr) (text : pystr) :
  missing (model_value data (py "email")) = true ->
  safe data links text (py "email") = Ok (find_email text) /\
  ((exists pre m post, occurs_in email_re text pre m post) ->
   exists pre post,
     occurs_in email_re text pre (find_email text) post /\
     leftmost email_re text pre) /\
  (~ (exists pre m post, occurs_in email_re text pre m post) ->
   find_email text = py "NA").
Proof.
  intros Hm. split; [|split].
  - now rewrite safe_missing.
  - apply find_email_first.
  - apply find_email_none.
Qed.

Lemma missing_email_falls_back_witness :
  let data := [(py "email", JStr (py "NA")); (py "name", JStr (py "Jane Doe"))] in
  let text := py "Contact: jane@example.com" in
  missing (model_value data (py "email")) = true /\
  safe (rt := ascii_runtime) data [] text (py "email") = Ok (find_email text) /\
  find_email text = py "jane@example.com".
Proof.
  assert (H1 : missing
                 (model_value
                    [(py "email", JStr (py "NA"));
                     (py "name", JStr (py "Jane Doe"))] (py "email")) = true)
    by reflexivity.
  split; [exact H1 | split; [| vm_compute; reflexivity]].
  exact (proj1 (missing_email_falls_back ascii_runtime _ []
                  (py "Contact: jane@example.com") H1)).
Defined.

(** C7.  When the completion for the prompt of the document has no
    brace-delimited block, the request ends with the message that no JSON
    block was found; no report has that text, so no record is returned. *)
Theorem no_json_block_is_failure (rt : Runtime) (client : pystr -> pystr)
    (pdf_file : pdf) :
  (forall prompt,
      build_extraction_prompt (pdf_text pdf_file) extract_info_function =
        Ok prompt ->
      ~ has_json_block (client prompt)) ->
  extract_info_from_pdf client pdf_file = Ok no_json_message /\
  (forall safe_fn report, pretty safe_fn = Ok report -> report <> no_json_message).
Proof.
  intros Hno. split.
  - rewrite extract_info_unfold, build_prompt_schema.
    apply parse_without_block. apply Hno. apply build_prompt_schema.
  - intros safe_fn report Hr. apply pretty_starts in Hr as [t ->].
    discriminate.
Qed.

Lemma no_json_block_is_failure_witness :
  let client := fun _ : pystr => py "I could not read this document." in
  let pdf_file := {| pdf_text := py "Jane Doe"; pdf_pages := [] |} in
  (forall prompt,
      build_extraction_prompt (rt := ascii_runtime) (pdf_text pdf_file)
        extract_info_function = Ok prompt ->
      ~ has_json_block (client prompt)) /\
  extract_info_from_pdf (rt := ascii_runtime) client pdf_file = Ok no_json_message.
Proof.
  assert (H : forall prompt : pystr,
             build_extraction_prompt (rt := ascii_runtime) (py "Jane Doe")
               extract_info_function = Ok prompt ->
             ~ has_json_block (py "I could not read this document."))
    by (intros prompt _; apply no_block_by_search; vm_compute; reflexivity).
  split; [exact H |].
  exact (proj1 (no_json_block_is_failure ascii_runtime
                  (fun _ => py "I could not read this document.")
                  {| pdf_text := py "Jane Doe"; pdf_pages := [] |} H)).
Defined.

(** C8.  For a schema that has its parameters and their properties, the
    prompt is the template around the dump of the properties and the first
    2000 characters of the text: a text of at most 2000 characters whole, a
    longer one cut at 2000; texts with the same first 2000 characters give
    the same prompt. *)
Theorem prompt_embeds_first_2000 (rt : Runtime) (text : pystr)
    (schema parameters properties : json) :
  subscript schema (py "parameters") = Ok parameters ->
  subscript parameters (py "properties") = Ok properties ->
  build_extraction_prompt text schema =
    Ok (prompt_intro ++ dumps repr_float 2 properties ++ prompt_middle ++
        firstn 2000 text ++ prompt_outro) /\
  (length text <= 2000 -> firstn 2000 text = text) /\
  (2000 < length text ->
   length (firstn 2000 text) = 2000 /\
   text = firstn 2000 text ++ skipn 2000 text) /\
  (forall text',
      firstn 2000 text' = firstn 2000 text ->
      build_extraction_prompt text' schema = build_extraction_prompt text schema).
Proof.
  intros H1 H2. split; [|split; [|split]].
  - now apply build_prompt_ok with parameters.
  - apply firstn_all2.
  - intros Hlen. split.
    + apply firstn_length_le. lia.
    + symmetry. apply firstn_skipn.
  - intros text' Hp.
    rewrite (build_prompt_ok text' schema parameters properties H1 H2).
    rewrite (build_prompt_ok text schema parameters properties H1 H2).
    now rewrite Hp.
Qed.

Lemma prompt_embeds_first_2000_witness :
  exists parameters,
    subscript extract_info_function (py "parameters") = Ok parameters /\
    subscript parameters (py "properties") = Ok schema_properties /\
    build_extraction_prompt (rt := ascii_runtime) (py "Jane Doe")
      extract_info_function =
    Ok (prompt_intro ++ dumps repr_float 2 schema_properties ++ prompt_middle ++
        firstn 2000 (py "Jane Doe") ++ prompt_outro).
Proof.
  eexists.
  assert (H1 : subscript extract_info_function (py "parameters") =
               Ok (JObject
                     [(py "type", JStr (py "object"));
                      (py "properties", schema_properties);
                      (py "required", JArray (map JStr schema_fields))]))
    by reflexivity.
  split; [exact H1 |].
  assert (H2 : subscript
                 (JObject
                    [(py "type", JStr (py "object"));
                     (py "properties", schema_properties);
                     (py "required", JArray (map JStr schema_fields))])
                 (py "properties") = Ok schema_properties) by reflexivity.
  split; [exact H2 |].
  exact (proj1 (prompt_embeds_first_2000 ascii_runtime (py "Jane Doe")
                  _ _ _ H1 H2)).
Defined.

(** C9, as the claim words it.  A value can hold a line feed: the escape
    \u000a passes the sanitizer and [strip] only trims the ends.  For the
    completion {"name": "A\u000aName: B"} the report has eight lines, two of
    them with the label Name, not one line per schema field. *)
Lemma report_with_line_feed_has_eight_lines :
  let lines :=
    [py "Name: A"; py "Name: B"; py "Mobile Number: NA"; py "Address: NA";
     py "Email: NA"; py "Linkedin: NA"; py "Github: NA";
     py "Experience Years: NA"] in
  loads (sanitize (pyq "{'name': 'A\u000aName: B'}")) =
    Some (JObject [(py "name", JStr (py "A" ++ nl ++ py "Name: B"))]) /\
  parse_and_reconcile (rt := ascii_runtime) (pyq "{'name': 'A\u000aName: B'}")
    [] [] = Ok (join nl lines) /\
  split_lines (join nl lines) = lines /\
  length (split_lines (join nl lines)) = 8 /\
  length schema_fields = 7.
Proof. repeat split; vm_compute; reflexivity. Qed.

(** C9, amended.  The report has one entry per schema field, label, colon,
    space, value, joined by newlines in the order name, mobile number,
    address, email, linkedin, github, experience years; when no value holds
    a line feed these entries are exactly the lines of the report.  The
    report does not depend on the order of the entries of the decoded
    object. *)
Theorem report_lines_in_fixed_order (rt : Runtime) :
  (forall safe_fn values,
      (forall f, In f schema_fields -> safe_fn f = Ok (values f)) ->
      pretty safe_fn = Ok (join nl (map (report_line values) labels)) /\
      ((forall f, In f schema_fields -> ~ In 10%N (values f)) ->
       split_lines (join nl (map (report_line values) labels)) =
       map (report_line values) labels)) /\
  map snd labels = schema_fields /\
  map fst labels =
    [py "Name"; py "Mobile Number"; py "Address"; py "Email"; py "Linkedin";
     py "Github"; py "Experience Years"] /\
  (forall data data' links text,
      NoDup (map fst data) -> Permutation data data' ->
      pretty (safe data links text) = pretty (safe data' links text)).
Proof.
  split; [|split; [|split]].
  - intros safe_fn values H. split; [now apply pretty_ok|].
    intros Hnl. apply split_lines_join; [discriminate|].
    apply Forall_forall. intros line Hin.
    apply in_map_iff in Hin as [[label f] [<- Hlf]].
    assert (Hf : In f schema_fields).
    { change schema_fields with (map snd labels).
      apply in_map_iff. now exists (label, f). }
    specialize (Hnl f Hf). unfold report_line. cbn [fst snd].
    intros Hin. apply in_app_or in Hin as [Hin|Hin].
    + revert Hin. clear -Hlf. unfold labels in Hlf. cbn [In] in Hlf.
      repeat (destruct Hlf as [E|Hlf];
              [injection E as <- <-; vm_compute; intuition discriminate|]).
      contradiction.
    + apply in_app_or in Hin as [Hin|Hin]; [|contradiction].
      revert Hin. vm_compute. intuition discriminate.
  - reflexivity.
  - reflexivity.
  - intros data data' links text Hnd Hp. apply pretty_ext. intros f.
    apply safe_lookup_ext. now apply lookup_permutation.
Qed.

Lemma report_lines_in_fixed_order_witness :
  let safe_fn := fun f : pystr => Ok f in
  (forall f, In f schema_fields -> safe_fn f = Ok f) /\
  pretty safe_fn = Ok (join nl (map (report_line (fun f => f)) labels)).
Proof.
  assert (H : forall f, In f schema_fields -> (fun f : pystr => Ok f) f = Ok f)
    by (intros f _; reflexivity).
  split; [exact H |].
  exact (proj1 (proj1 (report_lines_in_fixed_order ascii_runtime)
                  (fun f => Ok f) (fun f => f) H)).
Defined.



(** * Further properties of app.py *)

(** ** The links of the document *)

Section Links.
Context {rt : Runtime}.

Lemma page_links_spec (page : list link) u :
  In u (flat_map
          (fun l : link =>
             let uri := match l with Some x => x | None => [] end in
             match uri with
             | [] => []
             | _ :: _ => [uri]
             end) page) <->
  u <> [] /\ In (Some u) page.
Proof.
  rewrite in_flat_map. split.
  - intros [[x|] [Hin Hu]]; cbv zeta in Hu.
    + destruct x as [|c x]; [contradiction|].
      destruct Hu as [<-|[]]. split; [discriminate | exact Hin].
    + contradiction.
  - intros [Hne Hin]. exists (Some u). split; [exact Hin|].
    cbv zeta. destruct u; [contradiction | now left].
Qed.

(** X1.  [extract_pdf_links] returns the URIs of the links that have a
    non-empty one and nothing else, so never an empty string, and the links
    of a document are those of its first pages followed by those of the
    rest. *)
Theorem extract_pdf_links_spec (doc doc' : list (list link)) (u : pystr) :
  (In u (extract_pdf_links doc) <->
   u <> [] /\ exists page, In page doc /\ In (Some u) page) /\
  extract_pdf_links (doc ++ doc') =
    extract_pdf_links doc ++ extract_pdf_links doc'.
Proof.
  split.
  - unfold extract_pdf_links. rewrite in_flat_map. split.
    + intros [page [Hp Hu]]. apply page_links_spec in Hu as [Hne Hin].
      split; [exact Hne | now exists page].
    + intros [Hne [page [Hp Hin]]]. exists page. split; [exact Hp|].
      now apply page_links_spec.
  - unfold extract_pdf_links. apply flat_map_app.
Qed.

Lemma find_profile_none platform links :
  Forall (fun l => contains platform (str_lower l) = false) links ->
  find_profile_url_from_links links platform = py "NA".
Proof.
  intros H. induction H as [|l links Hl _ IH]; [reflexivity|].
  simpl. now rewrite Hl.
Qed.

(** X2.  [find_profile_url_from_links] returns the first link whose lowered
    text contains the platform, and "NA" exactly when no link does: the
    result is never a link that does not match, and a matching link is
    never passed over for a later one. *)
Theorem find_profile_url_cases (links : list pystr) (platform : pystr) :
  (Forall (fun l => contains platform (str_lower l) = false) links /\
   find_profile_url_from_links links platform = py "NA") \/
  (exists before u after,
      links = before ++ u :: after /\
      Forall (fun l => contains platform (str_lower l) = false) before /\
      contains platform (str_lower u) = true /\
      find_profile_url_from_links links platform = u).
Proof.
  induction links as [|l links IH].
  - left. split; [constructor | reflexivity].
  - destruct (contains platform (str_lower l)) eqn:Hl.
    + right. exists [], l, links. repeat split; [constructor | exact Hl |].
      simpl. now rewrite Hl.
    + destruct IH as [[Hall Hna] | (before & u & after & -> & Hb & Hu & Hr)].
      * left. split; [now constructor|]. simpl. now rewrite Hl.
      * right. exists (l :: before), u, after.
        repeat split; [now constructor | exact Hu |].
        simpl. now rewrite Hl.
Qed.

End Links.

(** ** The email found in the text *)

Section EmailToken.

Lemma greedy_star_total c k s :
  (forall t, k t <> None) -> greedy_star c k s <> None.
Proof. intros Hk. apply greedy_star_keeps. apply Hk. Qed.

(** A greedy run at the end of a pattern takes all it can. *)
Lemma last_run_stops c k :
  (forall t, k t = Some t) -> stops_before c (greedy_star c k).
Proof.
  intros Hk s. induction s as [|a s IH]; intros rest H; cbn [greedy_star] in H.
  - rewrite Hk in H. injection H as <-. exact I.
  - destruct (c a) eqn:Ca.
    + assert (Hs : greedy_star c k s <> None)
        by (apply greedy_star_total; intros t; rewrite Hk; discriminate).
      destruct (greedy_star c k s) as [r|] eqn:E; [|congruence].
      injection H as <-. now apply IH.
    + rewrite Hk in H. injection H as <-. exact Ca.
Qed.

Lemma final_run_stops c : stops_before c (greedy_star c (match_here [])).
Proof. apply last_run_stops. reflexivity. Qed.

Lemma greedy_star_stops c c' k :
  stops_before c k -> stops_before c (greedy_star c' k).
Proof.
  intros Hk s. induction s as [|a s IH]; intros rest H; cbn [greedy_star] in H.
  - now apply (Hk []).
  - destruct (c' a); [|now apply (Hk (a :: s))].
    destruct (greedy_star c' k s) as [r|] eqn:E; cbv iota in H.
    + injection H as <-. now apply IH.
    + now apply (Hk (a :: s)).
Qed.

Lemma lazy_star_stops c c' k :
  stops_before c k -> stops_before c (lazy_star c' k).
Proof.
  intros Hk s. induction s as [|a s IH]; intros rest H;
    rewrite lazy_star_unfold in H.
  - destruct (k []) eqn:E; [|discriminate]. injection H as <-.
    now apply (Hk []).
  - destruct (k (a :: s)) eqn:E.
    + injection H as <-. now apply (Hk (a :: s)).
    + destruct (c' a); [|discriminate]. now apply IH.
Qed.

Lemma match_here_stops c r :
  ends_with_run c r -> stops_before c (match_here r).
Proof.
  intros [r0 ->]. induction r0 as [|[c' q] r0 IH].
  - intros s rest H. cbn [app match_here] in H.
    destruct s as [|a s]; [discriminate|]. destruct (c a); [|discriminate].
    now apply (final_run_stops c s).
  - intros s rest H. cbn [app match_here] in H. destruct q.
    + destruct s as [|a s]; [discriminate|]. destruct (c' a); [|discriminate].
      now apply (IH s).
    + destruct s as [|a s]; [discriminate|]. destruct (c' a); [|discriminate].
      now apply (greedy_star_stops c c' _ IH s).
    + now apply (lazy_star_stops c c' _ IH s).
Qed.

Lemma re_search_stops c r s pre m post :
  ends_with_run c r -> re_search r s = Some (pre, m, post) ->
  match post with
  | x :: _ => c x = false
  | [] => True
  end.
Proof.
  intros Hr. revert pre. induction s as [|a s IH]; intros pre H; simpl in H.
  - destruct (match_here r []) eqn:E; [|discriminate]. injection H as <- <- <-.
    now apply (match_here_stops c r Hr []).
  - destruct (match_here r (a :: s)) eqn:E.
    + injection H as <- <- <-. now apply (match_here_stops c r Hr (a :: s)).
    + destruct (re_search r s) as [[[pre0 m0] post0]|] eqn:Es; [|discriminate].
      injection H as <- <- <-. now apply (IH pre0).
Qed.

Lemma email_re_ends : ends_with_run tail_char email_re.
Proof.
  exists [(local_char, Plus); (is_char "@", One); (domain_char, Plus);
          (is_char ".", One)].
  reflexivity.
Qed.

(** One more local character in front of an address gives an address. *)
Lemma email_grows_left c m :
  local_char c = true -> matches email_re m -> matches email_re (c :: m).
Proof.
  intros Hc Hm. apply email_matches in Hm
    as (loc & dom & tail & -> & Hl & Hd & Ht & Hfl & Hfd & Hft).
  apply email_matches. exists (c :: loc), dom, tail.
  repeat split; try assumption; [discriminate|].
  cbn [forallb]. fold (local_char c). now rewrite Hc.
Qed.

(** X3.  The email [find_email] finds is a whole token: in the text it is
    not preceded by a character an address may start with and not followed
    by a character an address may go on with.  In particular a full stop
    right after an address belongs to the result. *)
Theorem find_email_whole_token (text pre m post : pystr) :
  re_search email_re text = Some (pre, m, post) ->
  find_email text = m /\
  text = pre ++ m ++ post /\
  (forall pre' c, pre = pre' ++ [c] -> local_char c = false) /\
  (forall c post', post = c :: post' -> tail_char c = false).
Proof.
  intros E. destruct (re_search_some _ _ _ _ _ E) as [[Hs Hm] Hleft].
  split; [unfold find_email; now rewrite E|]. split; [exact Hs|]. split.
  - intros pre' c -> . destruct (local_char c) eqn:Hc; [|reflexivity].
    exfalso. specialize (Hleft pre' (c :: m) post).
    rewrite length_app in Hleft. simpl in Hleft.
    assert (length pre' + 1 <= length pre'); [|lia].
    apply Hleft. split.
    + rewrite Hs, <- app_assoc. reflexivity.
    + now apply email_grows_left.
  - intros c post' ->. exact (re_search_stops _ _ _ _ _ _ email_re_ends E).
Qed.

Lemma find_email_whole_token_witness :
  let text := py "Write to jane.doe@example.com. Thanks" in
  re_search email_re text =
    Some (py "Write to ", py "jane.doe@example.com.", py " Thanks") /\
  find_email text = py "jane.doe@example.com.".
Proof.
  assert (H : re_search email_re (py "Write to jane.doe@example.com. Thanks") =
              Some (py "Write to ", py "jane.doe@example.com.", py " Thanks"))
    by (vm_compute; reflexivity).
  split; [exact H |].
  exact (proj1 (find_email_whole_token _ _ _ _ H)).
Defined.

End EmailToken.

(** ** The sanitizer *)

Section Sanitizer.

Lemma control_match a s :
  match_here control_re (a :: s) = if is_control a then Some s else None.
Proof. reflexivity. Qed.

(** The first substitution drops the control characters and keeps the rest. *)
Lemma re_sub_control s :
  re_sub control_re [] s = filter (fun c => negb (is_control c)) s.
Proof.
  induction s as [|a s IH]; [reflexivity|].
  rewrite re_sub_cons, control_match. cbn [filter].
  destruct (is_control a); cbn [negb].
  - rewrite (proj2 (Nat.ltb_lt _ _)) by (simpl; lia). exact IH.
  - now rewrite IH.
Qed.

Lemma escaped_match s rest :
  match_here escaped_nt_re s = Some rest <->
  exists c, s = 92%N :: c :: rest /\ (c = ch "n" \/ c = ch "t").
Proof.
  cbn [match_here escaped_nt_re]. split.
  - destruct s as [|a [|c s]]; try discriminate.
    + destruct (N.eqb a 92); discriminate.
    + destruct (N.eqb a 92) eqn:Ea; [|discriminate].
      destruct (is_char "n" c || is_char "t" c) eqn:Ec; [|discriminate].
      intros H. injection H as <-. apply N.eqb_eq in Ea. subst a.
      exists c. split; [reflexivity|].
      apply orb_true_iff in Ec as [Ec|Ec]; apply is_char_eq in Ec; auto.
  - intros [c [-> Hc]]. rewrite N.eqb_refl.
    destruct Hc as [-> | ->]; reflexivity.
Qed.

Lemma has_escaped_nt_cons x out :
  has_escaped_nt (x :: out) <->
  (x = 92%N /\ exists c b, out = c :: b /\ (c = ch "n" \/ c = ch "t")) \/
  has_escaped_nt out.
Proof.
  split.
  - intros ([|y a] & c & b & H & Hc); simpl in H; injection H as -> ->.
    + left. split; [reflexivity | now exists c, b].
    + right. now exists a, c, b.
  - intros [[-> (c & b & -> & Hc)] | (a & c & b & -> & Hc)].
    + now exists [], c, b.
    + now exists (x :: a), c, b.
Qed.

Lemma has_escaped_nt_nil : ~ has_escaped_nt [].
Proof. intros ([|y a] & c & b & H & _); discriminate. Qed.

(** What the second substitution leaves: no backslash before n or t, and a
    first character n or t only where the text had one. *)
Lemma re_sub_escaped_clean n : forall s,
  length s <= n ->
  ~ has_escaped_nt (re_sub escaped_nt_re (py " ") s) /\
  (forall x out,
      re_sub escaped_nt_re (py " ") s = x :: out ->
      x = ch "n" \/ x = ch "t" -> exists s', s = x :: s').
Proof.
  induction n as [|n IH]; intros s Hn.
  - destruct s; [|simpl in Hn; lia]. split.
    + apply has_escaped_nt_nil.
    + discriminate.
  - destruct s as [|a s]; [split; [apply has_escaped_nt_nil | discriminate]|].
    rewrite re_sub_cons.
    destruct (match_here escaped_nt_re (a :: s)) as [rest|] eqn:E.
    + pose proof E as E'. apply escaped_match in E' as [c [Hs Hc]].
      injection Hs as -> ->.
      rewrite (proj2 (Nat.ltb_lt _ _)) by (simpl; lia).
      destruct (IH rest) as [Hclean _]; [simpl in Hn; lia|].
      change (py " " ++ re_sub escaped_nt_re (py " ") rest)
        with (32%N :: re_sub escaped_nt_re (py " ") rest).
      split.
      * rewrite has_escaped_nt_cons. intros [[H32 _] | H];
          [discriminate | contradiction].
      * intros x out H Hx. injection H as <- _.
        destruct Hx as [Hx | Hx]; vm_compute in Hx; discriminate.
    + destruct (IH s) as [Hclean Hhead]; [simpl in Hn; lia|]. split.
      * rewrite has_escaped_nt_cons. intros [[-> (c & b & Hout & Hc)] | H];
          [|contradiction].
        destruct (Hhead c b Hout Hc) as [s' ->].
        assert (Hm : match_here escaped_nt_re (92%N :: c :: s') = Some s')
          by (apply escaped_match; now exists c).
        congruence.
      * intros x out H _. injection H as <- _. now exists s.
Qed.

Lemma re_sub_escaped_chars n : forall s x,
  length s <= n ->
  In x (re_sub escaped_nt_re (py " ") s) -> x = 32%N \/ In x s.
Proof.
  induction n as [|n IH]; intros s x Hn Hin.
  - destruct s; [contradiction | simpl in Hn; lia].
  - destruct s as [|a s]; [contradiction|]. rewrite re_sub_cons in Hin.
    destruct (match_here escaped_nt_re (a :: s)) as [rest|] eqn:E.
    + apply escaped_match in E as [c [Hs Hc]]. injection Hs as -> ->.
      rewrite (proj2 (Nat.ltb_lt _ _)) in Hin by (simpl; lia).
      destruct Hin as [<- | Hin]; [now left|].
      destruct (IH rest x) as [H | H]; [simpl in Hn; lia | exact Hin | now left |].
      right. now do 2 right.
    + destruct Hin as [<- | Hin]; [right; now left|].
      destruct (IH s x) as [H | H]; [simpl in Hn; lia | exact Hin | now left |].
      right. now right.
Qed.

Lemma re_sub_escaped_length n : forall s,
  length s <= n -> length (re_sub escaped_nt_re (py " ") s) <= length s.
Proof.
  induction n as [|n IH]; intros s Hn.
  - destruct s; [simpl; lia | simpl in Hn; lia].
  - destruct s as [|a s]; [simpl; lia|]. rewrite re_sub_cons.
    destruct (match_here escaped_nt_re (a :: s)) as [rest|] eqn:E.
    + apply escaped_match in E as [c [Hs Hc]]. injection Hs as -> ->.
      rewrite (proj2 (Nat.ltb_lt _ _)) by (simpl; lia).
      specialize (IH rest). simpl in *. lia.
    + specialize (IH s). simpl in *. lia.
Qed.

(** A text without a backslash before n or t is left as it is. *)
Lemma re_sub_escaped_id s :
  ~ has_escaped_nt s -> re_sub escaped_nt_re (py " ") s = s.
Proof.
  induction s as [|a s IH]; intros H; [reflexivity|].
  rewrite re_sub_cons.
  destruct (match_here escaped_nt_re (a :: s)) as [rest|] eqn:E.
  - exfalso. apply H. apply escaped_match in E as [c [-> Hc]].
    now exists [], c, rest.
  - f_equal. apply IH. intros Hs. apply H. apply has_escaped_nt_cons. now right.
Qed.

Lemma filter_id (p : N -> bool) l :
  (forall x, In x l -> p x = true) -> filter p l = l.
Proof.
  induction l as [|x l IH]; intros H; [reflexivity|]. simpl.
  rewrite (H x) by now left. f_equal. apply IH. intros y Hy. apply H. now right.
Qed.

Lemma sanitize_no_control s c : In c (sanitize s) -> is_control c = false.
Proof.
  unfold sanitize. intros Hin.
  apply (re_sub_escaped_chars _ _ _ (Nat.le_refl _)) in Hin as [-> | Hin];
    [reflexivity|].
  rewrite re_sub_control in Hin. apply filter_In in Hin as [_ Hc].
  now apply negb_true_iff in Hc.
Qed.

Lemma sanitize_no_escaped_nt s : ~ has_escaped_nt (sanitize s).
Proof. unfold sanitize. now apply (re_sub_escaped_clean _ _ (Nat.le_refl _)). Qed.

(** X4.  What [sanitize] returns holds none of the control characters of
    the first pattern and no backslash followed by n or t; sanitizing again
    changes nothing, and the text never grows. *)
Theorem sanitize_clean (s : pystr) :
  (forall c, In c (sanitize s) -> is_control c = false) /\
  ~ has_escaped_nt (sanitize s) /\
  sanitize (sanitize s) = sanitize s /\
  length (sanitize s) <= length s.
Proof.
  split; [apply sanitize_no_control|]. split; [apply sanitize_no_escaped_nt|].
  split.
  - unfold sanitize at 1. rewrite re_sub_control.
    rewrite filter_id.
    + apply re_sub_escaped_id. apply sanitize_no_escaped_nt.
    + intros x Hx. apply negb_true_iff. now apply (sanitize_no_control s).
  - unfold sanitize. rewrite re_sub_control.
    etransitivity; [apply (re_sub_escaped_length _ _ (Nat.le_refl _))|].
    apply filter_length_le.
Qed.

End Sanitizer.

(** ** The decoded block *)

Section DecodedBlock.

Ltac split_cases H :=
  repeat match type of H with
         | context [match ?x with _ => _ end] => destruct x eqn:?
         | context [if ?x then _ else _] => destruct x eqn:?
         end.

Lemma closers_app a b : closers (a ++ b) = closers a + closers b.
Proof. induction a as [|x a IH]; simpl; [reflexivity | rewrite IH; lia]. Qed.

Lemma closers_suffix p rest : closers rest <= closers (p ++ rest).
Proof. rewrite closers_app. lia. Qed.

Lemma closers_cons c s : closers s <= closers (c :: s).
Proof. simpl. lia. Qed.

Lemma skip_ws_suffix s : exists p, s = p ++ skip_ws s.
Proof.
  induction s as [|c s [p IH]]; [now exists []|]. simpl.
  destruct (is_whitespace c).
  - exists (c :: p). simpl. now f_equal.
  - now exists [].
Qed.

Lemma closers_skip_ws s : closers (skip_ws s) <= closers s.
Proof.
  destruct (skip_ws_suffix s) as [p Hp]. rewrite Hp at 2. apply closers_suffix.
Qed.

Lemma scanstring_suffix n : forall s acc x rest,
  length s <= n -> scanstring s acc = Parsed x rest -> exists p, s = p ++ rest.
Proof.
  induction n as [|n IH]; intros s acc x rest Hn H.
  - destruct s; [discriminate | simpl in Hn; lia].
  - destruct s as [|c s]; [discriminate|]. cbn [scanstring] in H.
    split_cases H; try discriminate;
      try (injection H as <- <-; now exists [c]);
      try (apply IH in H; [|simpl in *; lia]; destruct H as [p ->];
           rewrite ?app_comm_cons; eexists; reflexivity).
Qed.

Lemma closers_scanstring s acc x rest :
  scanstring s acc = Parsed x rest -> closers rest <= closers s.
Proof.
  intros H. destruct (scanstring_suffix (length s) s acc x rest (Nat.le_refl _) H)
    as [p ->].
  apply closers_suffix.
Qed.

Lemma span_app p s a b : span p s = (a, b) -> s = a ++ b.
Proof.
  revert a b. induction s as [|c s IH]; intros a b H; simpl in H.
  - now injection H as <- <-.
  - destruct (p c).
    + destruct (span p s) as [a' b'] eqn:E. injection H as <- <-.
      simpl. f_equal. now apply IH.
    + now injection H as <- <-.
Qed.

Lemma scan_fraction_suffix s f r : scan_fraction s = (f, r) -> exists p, s = p ++ r.
Proof.
  unfold scan_fraction. intros H.
  destruct s as [|dot [|d s']]; try (injection H as <- <-; now exists []).
  destruct (N.eqb dot (ch ".") && is_digit d);
    [|injection H as <- <-; now exists []].
  destruct (span is_digit s') as [ds r'] eqn:E. apply span_app in E.
  injection H as <- <-. exists (dot :: d :: ds). simpl. now rewrite E.
Qed.

Lemma scan_exponent_suffix s x r : scan_exponent s = (x, r) -> exists p, s = p ++ r.
Proof.
  unfold scan_exponent. intros H.
  destruct s as [|e s']; [injection H as <- <-; now exists []|].
  destruct (N.eqb e (ch "e") || N.eqb e (ch "E"));
    [|injection H as <- <-; now exists []].
  destruct s' as [|c t].
  - simpl in H. injection H as <- <-. now exists [].
  - destruct (N.eqb c (ch "+")); [|destruct (N.eqb c (ch "-"))].
    + destruct (span is_digit t) as [ds r'] eqn:E. apply span_app in E.
      destruct ds as [|d ds]; injection H as <- <-; [now exists []|].
      exists (e :: c :: d :: ds). simpl. now rewrite E.
    + destruct (span is_digit t) as [ds r'] eqn:E. apply span_app in E.
      destruct ds as [|d ds]; injection H as <- <-; [now exists []|].
      exists (e :: c :: d :: ds). simpl. now rewrite E.
    + destruct (span is_digit (c :: t)) as [ds r'] eqn:E. apply span_app in E.
      destruct ds as [|d ds]; injection H as <- <-; [now exists []|].
      exists (e :: d :: ds). simpl. now rewrite E.
Qed.

Lemma number_tail_flat neg ds s v rest :
  number_tail neg ds s = Parsed v rest ->
  objects v = 0 /\ closers rest <= closers s.
Proof.
  unfold number_tail. intros H.
  destruct (scan_fraction s) as [f s1] eqn:E1.
  apply scan_fraction_suffix in E1 as [p1 ->].
  destruct (scan_exponent s1) as [x s2] eqn:E2.
  apply scan_exponent_suffix in E2 as [p2 ->].
  assert (Hc : closers s2 <= closers (p1 ++ p2 ++ s2))
    by (rewrite !closers_app; lia).
  destruct f, x; injection H as <- <-; now split.
Qed.

Lemma scan_integer_flat neg s v rest :
  scan_integer neg s = Parsed v rest ->
  objects v = 0 /\ closers rest <= closers s.
Proof.
  unfold scan_integer. intros H. destruct s as [|c s2]; [discriminate|].
  destruct (N.eqb c (ch "0")).
  - apply number_tail_flat in H as [Hv Hc]. split; [exact Hv|].
    etransitivity; [exact Hc | apply closers_cons].
  - destruct (is_digit c); [|discriminate].
    destruct (span is_digit s2) as [ds s3] eqn:E. apply span_app in E. subst s2.
    apply number_tail_flat in H as [Hv Hc]. split; [exact Hv|].
    etransitivity; [exact Hc|].
    etransitivity; [apply closers_suffix | apply closers_cons].
Qed.

Lemma match_number_flat s v rest :
  match_number s = Parsed v rest ->
  objects v = 0 /\ closers rest <= closers s.
Proof.
  unfold match_number. intros H. destruct s as [|c s']; [discriminate|].
  destruct (N.eqb c (ch "-")); apply scan_integer_flat in H as [Hv Hc];
    (split; [exact Hv|]); [|exact Hc].
  etransitivity; [exact Hc | apply closers_cons].
Qed.

Lemma constant_flat name v s v' rest :
  constant name v s = Some (Parsed v' rest) ->
  v' = v /\ closers rest <= closers s.
Proof.
  unfold constant. intros H. destruct (startswith name s); [|discriminate].
  injection H as <- <-. split; [reflexivity|].
  rewrite <- (firstn_skipn (length name) s) at 2. apply closers_suffix.
Qed.

Lemma scan_atom_flat s v rest :
  scan_atom s = Parsed v rest ->
  objects v = 0 /\ closers rest <= closers s.
Proof.
  unfold scan_atom. intros H.
  repeat match type of H with
         | context [constant ?n ?x ?y] =>
             let E := fresh "E" in destruct (constant n x y) eqn:E;
             [ subst; apply constant_flat in E as [-> Hc]; now split | ]
         end.
  exact (match_number_flat _ _ _ H).
Qed.

Lemma objects_array l : objects (JArray l) = objects_list l.
Proof.
  unfold objects_list. induction l as [|x l IH]; [reflexivity|].
  change (objects (JArray (x :: l))) with (objects x + objects (JArray l)).
  rewrite IH. reflexivity.
Qed.

Lemma objects_object d : objects (JObject d) = S (objects_dict d).
Proof.
  unfold objects_dict. induction d as [|[k x] d IH]; [reflexivity|].
  change (objects (JObject ((k, x) :: d)))
    with (S (objects x + pred (objects (JObject d)))).
  rewrite IH. reflexivity.
Qed.

Lemma objects_list_snoc l v : objects_list (l ++ [v]) = objects_list l + objects v.
Proof.
  unfold objects_list. rewrite map_app, list_sum_app. simpl. lia.
Qed.

Lemma objects_dict_set d k v :
  objects_dict (dict_set d k v) <= objects_dict d + objects v.
Proof.
  unfold objects_dict. induction d as [|[k' v'] d IH]; simpl; [lia|].
  destruct (str_eqb k' k); simpl; lia.
Qed.

Lemma objects_lookup d k v :
  lookup d k = Some v -> objects v <= objects_dict d.
Proof.
  unfold objects_dict. induction d as [|[k' v'] d IH]; [discriminate|]. simpl.
  destruct (str_eqb k' k).
  - intros H. injection H as ->. lia.
  - intros H. specialize (IH H). lia.
Qed.

(** Every dict of a decoded value was closed by a brace of the text. *)
Lemma scan_counts fuel :
  (forall s v rest,
      scan_once fuel s = Parsed v rest ->
      objects v + closers rest <= closers s) /\
  (forall acc s v rest,
      parse_members fuel acc s = Parsed v rest ->
      exists d, v = JObject d /\
                S (objects_dict d) + closers rest <= objects_dict acc + closers s) /\
  (forall acc s v rest,
      parse_items fuel acc s = Parsed v rest ->
      exists l, v = JArray l /\
                objects_list l + closers rest <= objects_list acc + closers s).
Proof.
  induction fuel as [|n [IHs [IHm IHi]]]; [repeat split; discriminate|].
  repeat split.
  - intros s v rest H. destruct s as [|c s']; [discriminate|].
    cbn [scan_once] in H.
    destruct (N.eqb c 34).
    { destruct (scanstring s' []) eqn:E; try discriminate.
      injection H as <- <-. apply closers_scanstring in E.
      pose proof (closers_cons c s'). simpl objects. lia. }
    pose proof (closers_skip_ws s') as Hws. pose proof (closers_cons c s') as Hc.
    destruct (N.eqb c (ch "{")).
    { destruct (skip_ws s') as [|c1 s1] eqn:E; [discriminate|].
      destruct (N.eqb c1 (ch "}")) eqn:E1.
      - injection H as <- <-. cbn [closers] in Hws. rewrite E1 in Hws.
        change (objects (JObject [])) with 1. lia.
      - apply IHm in H as [d [-> Hd]]. rewrite objects_object.
        change (objects_dict []) with 0 in Hd. lia. }
    destruct (N.eqb c (ch "[")).
    { destruct (skip_ws s') as [|c1 s1] eqn:E; [discriminate|].
      destruct (N.eqb c1 (ch "]")) eqn:E1.
      - injection H as <- <-. pose proof (closers_cons c1 s1). simpl objects. lia.
      - apply IHi in H as [l [-> Hl]]. rewrite objects_array.
        change (objects_list []) with 0 in Hl. lia. }
    apply scan_atom_flat in H as [-> Hr]. lia.
  - intros acc s v rest H. cbn [parse_members] in H.
    destruct s as [|c s1]; [discriminate|].
    destruct (N.eqb c 34); [|discriminate].
    destruct (scanstring s1 []) as [key s2| |] eqn:E; try discriminate.
    apply closers_scanstring in E. pose proof (closers_cons c s1) as Hc.
    pose proof (closers_skip_ws s2) as Hw2.
    destruct (skip_ws s2) as [|c2 s3]; [discriminate|].
    destruct (N.eqb c2 (ch ":")); [|discriminate].
    pose proof (closers_cons c2 s3) as Hc2.
    pose proof (closers_skip_ws s3) as Hw3.
    destruct (scan_once n (skip_ws s3)) as [x s4| |] eqn:Ev; try discriminate.
    apply IHs in Ev. pose proof (closers_skip_ws s4) as Hw4.
    pose proof (objects_dict_set acc key x) as Hset.
    destruct (skip_ws s4) as [|c5 s5]; [discriminate|].
    destruct (N.eqb c5 (ch "}")) eqn:E5.
    + injection H as <- <-. exists (dict_set acc key x). split; [reflexivity|].
      cbn [closers] in Hw4. rewrite E5 in Hw4. lia.
    + destruct (N.eqb c5 (ch ",")); [|discriminate].
      apply IHm in H as [d [-> Hd]]. exists d. split; [reflexivity|].
      pose proof (closers_skip_ws s5). pose proof (closers_cons c5 s5). lia.
  - intros acc s v rest H. cbn [parse_items] in H.
    destruct (scan_once n s) as [x s1| |] eqn:Ev; try discriminate.
    apply IHs in Ev. pose proof (closers_skip_ws s1) as Hw1.
    pose proof (objects_list_snoc acc x) as Hsnoc.
    destruct (skip_ws s1) as [|c2 s2]; [discriminate|].
    pose proof (closers_cons c2 s2) as Hc2.
    destruct (N.eqb c2 (ch "]")).
    + injection H as <- <-. exists (acc ++ [x]). split; [reflexivity|]. lia.
    + destruct (N.eqb c2 (ch ",")); [|discriminate].
      apply IHi in H as [l [-> Hl]]. exists l. split; [reflexivity|].
      pose proof (closers_skip_ws s2). lia.
Qed.

Lemma loads_counts s v : loads s = Some v -> objects v <= closers s.
Proof.
  unfold loads, loads_fuel. destruct (startswith [65279%N] s); [discriminate|].
  destruct (scan_once (S (2 * length s)) (skip_ws s)) as [x rest| |] eqn:E;
    try discriminate.
  destruct (skip_ws rest); [|discriminate]. intros H. injection H as <-.
  apply scan_counts in E. pose proof (closers_skip_ws s). lia.
Qed.

(** A text that starts with an opening brace decodes to a dict or not at
    all. *)
Lemma loads_brace s v : loads (ch "{" :: s) = Some v -> exists d, v = JObject d.
Proof.
  unfold loads, loads_fuel.
  change (startswith [65279%N] (ch "{" :: s)) with false. cbv iota.
  change (skip_ws (ch "{" :: s)) with (ch "{" :: s).
  destruct (scan_once (S (2 * length (ch "{" :: s))) (ch "{" :: s))
    as [x rest| |] eqn:E; try discriminate.
  destruct (skip_ws rest); [|discriminate]. intros H. injection H as <-.
  cbn [scan_once] in E. change (N.eqb (ch "{") 34) with false in E.
  change (N.eqb (ch "{") (ch "{")) with true in E. cbv iota in E.
  destruct (skip_ws s) as [|c1 s1]; [discriminate|].
  destruct (N.eqb c1 (ch "}")).
  - injection E as <- _. now exists [].
  - apply scan_counts in E as [d [-> _]]. now exists d.
Qed.

End DecodedBlock.

(** ** The outcomes of the reconciliation *)

Section Outcomes.
Context {rt : Runtime}.

Lemma first_block_shape response block more :
  json_matches response = block :: more ->
  exists pre mid post,
    response = pre ++ ch "{" :: mid ++ ch "}" :: post /\
    block = ch "{" :: mid ++ [ch "}"] /\
    ~ In (ch "{") pre /\ ~ In (ch "}") mid.
Proof.
  intros Hm.
  assert (Hb : has_json_block response).
  { pose proof (re_finditer_head json_block_re response) as Hhd.
    fold (json_matches response) in Hhd. rewrite Hm in Hhd.
    destruct (re_search json_block_re response) as [[[pre m] post]|] eqn:E;
      [|discriminate].
    destruct (re_search_some _ _ _ _ _ E) as [[Hs Hmatch] _].
    apply block_matches in Hmatch as [w ->]. exists pre, w, post.
    rewrite Hs. simpl. now rewrite <- app_assoc. }
  destruct (has_json_block_first _ Hb) as (pre & mid & post & Hs & Hpre & Hmid).
  exists pre, mid, post. repeat split; try assumption.
  pose proof (re_finditer_head json_block_re response) as Hhd.
  fold (json_matches response) in Hhd. rewrite Hm in Hhd.
  rewrite Hs, block_search in Hhd by assumption. now injection Hhd.
Qed.

Lemma json_matches_nil response : json_matches response = [] -> ~ has_json_block response.
Proof.
  intros Hm Hb.
  destruct (has_json_block_first _ Hb) as (pre & mid & post & Hs & Hpre & Hmid).
  pose proof (re_finditer_head json_block_re response) as Hhd.
  fold (json_matches response) in Hhd.
  rewrite Hm, Hs, block_search in Hhd by assumption. discriminate.
Qed.

Lemma closers_none s : ~ In (ch "}") s -> closers s = 0.
Proof.
  induction s as [|c s IH]; intros H; [reflexivity|]. cbn [closers].
  destruct (N.eqb c (ch "}")) eqn:E.
  - apply N.eqb_eq in E. exfalso. apply H. now left.
  - apply IH. intros Hin. apply H. now right.
Qed.

Lemma closers_filter (p : N -> bool) s : closers (filter p s) <= closers s.
Proof.
  induction s as [|c s IH]; [apply Nat.le_refl|]. simpl.
  destruct (p c); simpl; lia.
Qed.

Lemma closers_re_sub_escaped n : forall s,
  length s <= n -> closers (re_sub escaped_nt_re (py " ") s) <= closers s.
Proof.
  induction n as [|n IH]; intros s Hn.
  - destruct s; [apply Nat.le_refl | simpl in Hn; lia].
  - destruct s as [|a s]; [apply Nat.le_refl|]. rewrite re_sub_cons.
    destruct (match_here escaped_nt_re (a :: s)) as [rest|] eqn:E.
    + apply escaped_match in E as [c [Hs Hc]]. injection Hs as -> ->.
      rewrite (proj2 (Nat.ltb_lt _ _)) by (simpl; lia).
      specialize (IH rest). rewrite closers_app.
      change (closers (py " ")) with 0.
      pose proof (closers_cons c rest). pose proof (closers_cons 92%N (c :: rest)).
      simpl in Hn. lia.
    + specialize (IH s). cbn [closers]. simpl in Hn. lia.
Qed.

Lemma closers_sanitize s : closers (sanitize s) <= closers s.
Proof.
  unfold sanitize. rewrite re_sub_control.
  etransitivity; [apply (closers_re_sub_escaped _ _ (Nat.le_refl _))|].
  apply closers_filter.
Qed.

Lemma sanitize_brace s : sanitize (ch "{" :: s) = ch "{" :: sanitize s.
Proof.
  unfold sanitize. rewrite !re_sub_control.
  change (filter (fun c => negb (is_control c)) (ch "{" :: s))
    with (ch "{" :: filter (fun c => negb (is_control c)) s).
  now rewrite re_sub_cons.
Qed.

Lemma decoded_block_flat response block more v :
  json_matches response = block :: more ->
  loads (sanitize block) = Some v ->
  exists data,
    v = JObject data /\
    (forall field x, lookup data field = Some x -> objects x = 0).
Proof.
  intros Hm Hl.
  destruct (first_block_shape _ _ _ Hm) as (pre & mid & post & _ & -> & _ & Hmid).
  rewrite sanitize_brace in Hl.
  destruct (loads_brace _ _ Hl) as [data ->]. exists data.
  split; [reflexivity|].
  intros field x Hx. apply objects_lookup in Hx.
  apply loads_counts in Hl. rewrite objects_object in Hl.
  rewrite <- sanitize_brace in Hl.
  pose proof (closers_sanitize (ch "{" :: mid ++ [ch "}"])) as Hc.
  assert (Hone : closers (ch "{" :: mid ++ [ch "}"]) = 1).
  { cbn [closers]. rewrite closers_app, (closers_none _ Hmid). reflexivity. }
  lia.
Qed.

(** X5.  What the pipeline decodes is a dict whose values hold no dict: the
    block ends at the first closing brace, so an object inside the answer
    never survives.  No call of [data.get] can fail, and the unwrapping of a
    nested "value" entry in [safe] is never taken. *)
Theorem decoded_block_is_flat (response block : pystr) (more : list pystr)
    (v : json) :
  json_matches response = block :: more ->
  loads (sanitize block) = Some v ->
  exists data,
    v = JObject data /\
    (forall field x, lookup data field = Some x -> objects x = 0) /\
    (forall field, model_value data field = dict_get data field (JStr [])).
Proof.
  intros Hm Hl.
  destruct (decoded_block_flat _ _ _ _ Hm Hl) as [data [-> Hflat]].
  exists data. split; [reflexivity|]. split; [exact Hflat|].
  intros field. unfold model_value, dict_get.
  destruct (lookup data field) as [x|] eqn:Hx; [|reflexivity].
  specialize (Hflat field x Hx). destruct x; try reflexivity.
  rewrite objects_object in Hflat. discriminate.
Qed.

Lemma decoded_block_is_flat_witness :
  let response := pyq "Sure: {'name': 'Bob', 'tags': [1, 2]} and more" in
  let block := pyq "{'name': 'Bob', 'tags': [1, 2]}" in
  let v := JObject [(py "name", JStr (py "Bob"));
                    (py "tags", JArray [JInt 1; JInt 2])] in
  json_matches response = [block] /\
  loads (sanitize block) = Some v /\
  exists data, v = JObject data.
Proof.
  assert (H1 : json_matches
                 (pyq "Sure: {'name': 'Bob', 'tags': [1, 2]} and more") =
               [pyq "{'name': 'Bob', 'tags': [1, 2]}"])
    by (vm_compute; reflexivity).
  assert (H2 : loads (sanitize (pyq "{'name': 'Bob', 'tags': [1, 2]}")) =
               Some (JObject [(py "name", JStr (py "Bob"));
                              (py "tags", JArray [JInt 1; JInt 2])]))
    by (vm_compute; reflexivity).
  split; [exact H1 | split; [exact H2 |]].
  destruct (decoded_block_is_flat _ _ _ _ H1 H2) as [data [Hd _]].
  exists data. exact Hd.
Defined.

Lemma safe_email_raises data links text :
  ~ email_usable data -> safe data links text (py "email") = Raise TypeError.
Proof.
  intros Hno. unfold safe.
  destruct (missing (model_value data (py "email"))) eqn:Hm.
  - exfalso. apply Hno. now left.
  - change (is_profile_field (py "email")) with false.
    change (str_eqb (py "email") (py "email")) with true. cbn [andb].
    destruct (model_value data (py "email")) eqn:Hv; try reflexivity.
    exfalso. apply Hno. right. now exists s.
Qed.

Lemma email_usable_dec data : email_usable data \/ ~ email_usable data.
Proof.
  unfold email_usable.
  destruct (missing (model_value data (py "email"))); [now left; left|].
  destruct (model_value data (py "email")) eqn:Hv;
    try (right; intros [H | [s0 H]]; discriminate).
  left. right. now exists s.
Qed.

Lemma pretty_usable data links text :
  email_usable data ->
  exists values,
    pretty (safe data links text) =
    Ok (join nl (map (report_line values) labels)).
Proof.
  intros He.
  assert (Hall : forall f, exists value, safe data links text f = Ok value).
  { intros f. apply safe_returns. intros ->. exact He. }
  exists (fun f => match safe data links text f with
                   | Ok value => value
                   | Raise _ => []
                   end).
  apply pretty_ok. intros f _. destruct (Hall f) as [value Hv]. now rewrite Hv.
Qed.

Lemma pretty_unusable data links text :
  ~ email_usable data -> pretty (safe data links text) = Raise TypeError.
Proof.
  intros He. unfold pretty.
  destruct (safe_returns data links text (py "name")) as [v1 H1];
    [intros E; vm_compute in E; discriminate|].
  destruct (safe_returns data links text (py "mobile_number")) as [v2 H2];
    [intros E; vm_compute in E; discriminate|].
  destruct (safe_returns data links text (py "address")) as [v3 H3];
    [intros E; vm_compute in E; discriminate|].
  rewrite H1, H2, H3, (safe_email_raises data links text He). reflexivity.
Qed.

(** X6.  What [extract_info_from_pdf] makes of a completion ends in one of
    four ways: the no-block message when the completion has no
    brace-delimited block; the parse-failure message, which carries the
    whole completion, when the first block does not decode after
    sanitizing; the report of seven entries when it decodes and the model's email
    is missing or a string; a TypeError when the email is present and not a
    string.  Nothing else is ever raised. *)
Theorem reconcile_outcomes (response : pystr) (links : list pystr)
    (text : pystr) :
  (~ has_json_block response /\
   parse_and_reconcile response links text = Ok no_json_message) \/
  (exists block more,
      json_matches response = block :: more /\
      ((loads (sanitize block) = None /\
        parse_and_reconcile response links text =
        Ok (parse_failure_message (sanitize block) response)) \/
       (exists data,
           loads (sanitize block) = Some (JObject data) /\
           ((email_usable data /\
             exists values,
               parse_and_reconcile response links text =
               Ok (join nl (map (report_line values) labels))) \/
            (~ email_usable data /\
             parse_and_reconcile response links text = Raise TypeError))))).
Proof.
  destruct (json_matches response) as [|block more] eqn:Hm.
  - left. pose proof (json_matches_nil _ Hm) as Hno.
    split; [exact Hno | now apply parse_without_block].
  - right. exists block, more. split; [reflexivity|].
    unfold parse_and_reconcile. rewrite Hm.
    destruct (loads (sanitize block)) as [v|] eqn:Hl.
    + right. destruct (decoded_block_flat _ _ _ _ Hm Hl) as [data [-> _]].
      exists data. split; [reflexivity|].
      destruct (email_usable_dec data) as [He | He].
      * left. split; [exact He | now apply pretty_usable].
      * right. split; [exact He | now apply pretty_unusable].
    + left. split; reflexivity.
Qed.

End Outcomes.

(** ** The fields that come from the model alone *)

Section PlainFields.
Context {rt : Runtime}.

Lemma lstrip_head s c t : lstrip s = c :: t -> is_space c = false.
Proof.
  induction s as [|x s IH]; [discriminate|]. simpl.
  destruct (is_space x) eqn:E; [exact IH|]. intros H. now injection H as <- _.
Qed.

Lemma lstrip_idem s : lstrip (lstrip s) = lstrip s.
Proof.
  destruct (lstrip s) as [|c t] eqn:E; [reflexivity|].
  apply lstrip_stops. exact (lstrip_head _ _ _ E).
Qed.

Lemma lstrip_snoc l c : is_space c = false -> lstrip (l ++ [c]) = lstrip l ++ [c].
Proof.
  intros Hc. induction l as [|x l IH]; simpl; [now rewrite Hc|].
  now destruct (is_space x).
Qed.

Lemma rstrip_cons c t : is_space c = false -> rstrip (c :: t) = c :: rstrip t.
Proof.
  intros Hc. unfold rstrip. simpl. rewrite lstrip_snoc by exact Hc.
  now rewrite rev_app_distr.
Qed.

Lemma rstrip_idem s : rstrip (rstrip s) = rstrip s.
Proof. unfold rstrip. now rewrite rev_involutive, lstrip_idem. Qed.

Lemma strip_idem s : strip (strip s) = strip s.
Proof.
  unfold strip. destruct (lstrip s) as [|c t] eqn:E; [reflexivity|].
  pose proof (lstrip_head _ _ _ E) as Hc.
  rewrite !(rstrip_cons c) by exact Hc.
  rewrite (lstrip_stops c) by exact Hc.
  now rewrite (rstrip_cons c), rstrip_idem.
Qed.

Lemma lstrip_blank s : forallb is_space s = true -> lstrip s = [].
Proof.
  induction s as [|c s IH]; [reflexivity|]. simpl. intros H.
  apply andb_true_iff in H as [Hc Hs]. rewrite Hc. now apply IH.
Qed.

Lemma strip_blank s : forallb is_space s = true -> strip s = [].
Proof. intros H. unfold strip. now rewrite lstrip_blank. Qed.

Lemma blank_not_missing s :
  s <> [] -> forallb is_space s = true -> missing (JStr s) = false.
Proof.
  intros Hne Hs. destruct s as [|c s]; [contradiction|].
  simpl in Hs. apply andb_true_iff in Hs as [Hc _].
  unfold missing. cbn [truthy negb orb in_strings existsb].
  assert (H78 : N.eqb c 78 = false).
  { destruct (N.eqb c 78) eqn:E; [|reflexivity].
    apply N.eqb_eq in E. subst c. discriminate. }
  assert (H110 : N.eqb c 110 = false).
  { destruct (N.eqb c 110) eqn:E; [|reflexivity].
    apply N.eqb_eq in E. subst c. discriminate. }
  change (py "NA") with (78%N :: py "A").
  change (py "None") with (78%N :: py "one").
  change (py "null") with (110%N :: py "ull").
  cbn [str_eqb]. now rewrite H78, H110.
Qed.

Lemma safe_plain data links text field :
  plain_field field ->
  safe data links text field =
  Ok (if missing (model_value data field) then py "NA"
      else if truthy (model_value data field)
           then strip (str repr_str repr_float (model_value data field))
           else py "NA").
Proof.
  intros [Hp He]. unfold safe, fallback. rewrite Hp, He. cbn [andb].
  now destruct (missing (model_value data field)).
Qed.

(** X7.  A field other than linkedin, github and email comes from the model
    alone: its reconciled value does not depend on the links or on the text
    of the document, and it carries no white space at either end. *)
Theorem plain_field_trimmed (data : dict) (links links' : list pystr)
    (text text' field value : pystr) :
  plain_field field ->
  safe data links text field = Ok value ->
  strip value = value /\ safe data links' text' field = Ok value.
Proof.
  intros Hp H. rewrite (safe_plain data links' text' field Hp).
  rewrite (safe_plain data links text field Hp) in H.
  split; [|exact H]. injection H as <-.
  destruct (missing (model_value data field)); [reflexivity|].
  destruct (truthy (model_value data field)); [apply strip_idem | reflexivity].
Qed.

(** X8.  A value made of white space only is not missing: such a field
    resolves to the empty string, not to "NA". *)
Theorem blank_value_gives_empty (data : dict) (links : list pystr)
    (text field s : pystr) :
  plain_field field ->
  lookup data field = Some (JStr s) ->
  s <> [] -> forallb is_space s = true ->
  safe data links text field = Ok [].
Proof.
  intros Hp Hl Hne Hs. rewrite (safe_plain data links text field Hp).
  unfold model_value, dict_get. rewrite Hl.
  rewrite (blank_not_missing s Hne Hs).
  destruct s as [|c s]; [contradiction|]. cbn [truthy str].
  now rewrite strip_blank.
Qed.

(** X9.  For linkedin and github, when no link of the document contains the
    platform, a present model value is kept, as a string and trimmed; with
    X2 and the override this settles the profile fields. *)
Theorem profile_without_link_keeps_model (data : dict) (links : list pystr)
    (text platform : pystr) :
  platform = py "linkedin" \/ platform = py "github" ->
  Forall (fun l => contains platform (str_lower l) = false) links ->
  missing (model_value data platform) = false ->
  safe data links text platform =
  Ok (strip (str repr_str repr_float (model_value data platform))).
Proof.
  intros Hp Hlinks Hm. unfold safe. rewrite Hm.
  rewrite (find_profile_none platform links Hlinks), str_eqb_refl.
  cbn [negb]. rewrite andb_false_r.
  assert (He : str_eqb platform (py "email") = false)
    by (destruct Hp as [-> | ->]; reflexivity).
  rewrite He. unfold missing in Hm. apply orb_false_iff in Hm as [Ht _].
  apply negb_false_iff in Ht. now rewrite Ht.
Qed.

End PlainFields.

Lemma plain_field_trimmed_witness :
  let data := [(py "name", JStr (py "  Jane Doe "))] in
  plain_field (py "name") /\
  safe (rt := ascii_runtime) data [py "https://github.com/jane"]
    (py "jane@example.com") (py "name") = Ok (py "Jane Doe") /\
  strip (py "Jane Doe") = py "Jane Doe".
Proof.
  assert (H1 : plain_field (py "name")) by (split; reflexivity).
  assert (H2 : safe (rt := ascii_runtime) [(py "name", JStr (py "  Jane Doe "))]
                 [py "https://github.com/jane"] (py "jane@example.com")
                 (py "name") = Ok (py "Jane Doe")) by (vm_compute; reflexivity).
  split; [exact H1 | split; [exact H2 |]].
  exact (proj1 (plain_field_trimmed (rt := ascii_runtime) _ _ [] _ []
                  _ _ H1 H2)).
Defined.

Lemma blank_value_gives_empty_witness :
  let data := [(py "address", JStr (py "   "))] in
  plain_field (py "address") /\
  lookup data (py "address") = Some (JStr (py "   ")) /\
  py "   " <> [] /\
  forallb is_space (py "   ") = true /\
  safe (rt := ascii_runtime) data [] [] (py "address") = Ok [].
Proof.
  assert (H1 : plain_field (py "address")) by (split; reflexivity).
  assert (H2 : lookup [(py "address", JStr (py "   "))] (py "address") =
               Some (JStr (py "   "))) by reflexivity.
  assert (H3 : py "   " <> []) by discriminate.
  assert (H4 : forallb is_space (py "   ") = true) by reflexivity.
  split; [exact H1 | split; [exact H2 | split; [exact H3 | split; [exact H4 |]]]].
  exact (blank_value_gives_empty (rt := ascii_runtime) _ [] [] _ _ H1 H2 H3 H4).
Defined.

Lemma profile_without_link_keeps_model_witness :
  let data := [(py "github", JStr (py " https://github.com/jane "))] in
  let links := [py "https://example.com/jane"] in
  (py "github" = py "linkedin" \/ py "github" = py "github") /\
  Forall (fun l => contains (py "github") (str_lower l) = false) links /\
  missing (model_value data (py "github")) = false /\
  safe (rt := ascii_runtime) data links [] (py "github") =
    Ok (py "https://github.com/jane").
Proof.
  assert (H1 : py "github" = py "linkedin" \/ py "github" = py "github")
    by (right; reflexivity).
  assert (H2 : Forall
                 (fun l => contains (py "github")
                             (str_lower (Runtime := ascii_runtime) l) = false)
                 [py "https://example.com/jane"])
    by (constructor; [vm_compute; reflexivity | constructor]).
  assert (H3 : missing
                 (model_value [(py "github", JStr (py " https://github.com/jane "))]
                    (py "github")) = false) by reflexivity.
  split; [exact H1 | split; [exact H2 | split; [exact H3 |]]].
  exact (profile_without_link_keeps_model (rt := ascii_runtime) _ _ [] _
           H1 H2 H3).
Defined.


(** ** The prompt, further *)

Section PromptBounds.
Context {rt : Runtime}.

(** X10.  [build_extraction_prompt] returns a prompt exactly when the schema
    is a dict whose "parameters" entry is a dict with a "properties" entry;
    a missing key raises KeyError, a schema or parameters that is no dict
    raises TypeError, and which of these happens does not depend on the
    text. *)
Theorem build_prompt_errors (text : pystr) (schema : json) :
  ((exists prompt, build_extraction_prompt text schema = Ok prompt) <->
   exists o o' properties,
     schema = JObject o /\ lookup o (py "parameters") = Some (JObject o') /\
     lookup o' (py "properties") = Some properties) /\
  (forall o, schema = JObject o -> lookup o (py "parameters") = None ->
             build_extraction_prompt text schema = Raise KeyError) /\
  (forall o o', schema = JObject o ->
                lookup o (py "parameters") = Some (JObject o') ->
                lookup o' (py "properties") = None ->
                build_extraction_prompt text schema = Raise KeyError) /\
  ((forall o, schema <> JObject o) ->
   build_extraction_prompt text schema = Raise TypeError) /\
  (forall text' e,
      build_extraction_prompt text schema = Raise e ->
      build_extraction_prompt text' schema = Raise e).
Proof.
  unfold build_extraction_prompt, subscript, bind.
  split; [|split; [|split; [|split]]].
  - split.
    + intros [prompt H]. destruct schema as [| | | | | |o]; try discriminate.
      destruct (lookup o (py "parameters")) as [p|] eqn:E1; [|discriminate].
      destruct p as [| | | | | |o']; try discriminate.
      destruct (lookup o' (py "properties")) as [q|] eqn:E2; [|discriminate].
      now exists o, o', q.
    + intros (o & o' & q & -> & E1 & E2). rewrite E1, E2. eexists. reflexivity.
  - intros o -> E. now rewrite E.
  - intros o o' -> E1 E2. now rewrite E1, E2.
  - intros H. destruct schema; try reflexivity. now destruct (H o).
  - intros text' e H. destruct schema as [| | | | | |o]; try exact H.
    destruct (lookup o (py "parameters")) as [p|]; [|exact H].
    destruct p as [| | | | | |o']; try exact H.
    destruct (lookup o' (py "properties")); [discriminate | exact H].
Qed.

Lemma Ok_inj (A : Type) (a b : A) : Ok a = Ok b -> a = b.
Proof. intros H. now injection H. Qed.

(** X11.  With the schema of the program the prompt is never longer than
    2674 characters, whatever the length of the document: 674 characters of
    template and schema and at most 2000 of text. *)
Theorem prompt_length_bounded (text prompt : pystr) :
  build_extraction_prompt text extract_info_function = Ok prompt ->
  length prompt = 674 + Nat.min 2000 (length text) /\ length prompt <= 2674.
Proof.
  intros H.
  rewrite (build_prompt_ok text extract_info_function
             (JObject [(py "type", JStr (py "object"));
                       (py "properties", schema_properties);
                       (py "required", JArray (map JStr schema_fields))])
             schema_properties eq_refl eq_refl) in H.
  apply Ok_inj in H. subst prompt.
  rewrite !length_app, length_firstn.
  assert (Hi : length prompt_intro = 278) by reflexivity.
  assert (Hd : length (dumps repr_float 2 schema_properties) = 299)
    by reflexivity.
  assert (Hm : length prompt_middle = 80) by reflexivity.
  assert (Ho : length prompt_outro = 17) by reflexivity.
  rewrite Hi, Hd, Hm, Ho. lia.
Qed.

End PromptBounds.

Lemma prompt_length_bounded_witness :
  exists prompt,
    build_extraction_prompt (rt := ascii_runtime) (py "Jane Doe")
      extract_info_function = Ok prompt /\
    length prompt = 682.
Proof.
  eexists.
  assert (H : build_extraction_prompt (rt := ascii_runtime) (py "Jane Doe")
                extract_info_function =
              Ok (strip (prompt_head ++
                         dumps (repr_float (Runtime := ascii_runtime)) 2
                           schema_properties ++
                         prompt_middle ++ firstn 2000 (py "Jane Doe") ++
                         prompt_tail))) by reflexivity.
  split; [exact H |].
  exact (proj1 (prompt_length_bounded (rt := ascii_runtime) _ _ H)).
Defined.


(** ** How the steps compose *)

Section Composition.
Context {rt : Runtime}.

Lemma json_matches_first pre mid post :
  ~ In (ch "{") pre -> ~ In (ch "}") mid ->
  exists more,
    json_matches (pre ++ ch "{" :: mid ++ ch "}" :: post) =
    (ch "{" :: mid ++ [ch "}"]) :: more.
Proof.
  intros Hpre Hmid.
  pose proof (re_finditer_head json_block_re
                (pre ++ ch "{" :: mid ++ ch "}" :: post)) as H.
  rewrite block_search in H by assumption.
  fold (json_matches (pre ++ ch "{" :: mid ++ ch "}" :: post)) in H.
  destruct (json_matches (pre ++ ch "{" :: mid ++ ch "}" :: post)) as [|b more];
    [discriminate|].
  injection H as ->. now exists more.
Qed.

(** X12.  When the first block decodes, what stands before and after it in
    the completion has no effect on the result: the report is that of the
    block alone. *)
Theorem surroundings_are_ignored (pre mid post : pystr) (links : list pystr)
    (text : pystr) :
  ~ In (ch "{") pre -> ~ In (ch "}") mid ->
  loads (sanitize (ch "{" :: mid ++ [ch "}"])) <> None ->
  parse_and_reconcile (pre ++ ch "{" :: mid ++ ch "}" :: post) links text =
  parse_and_reconcile (ch "{" :: mid ++ [ch "}"]) links text.
Proof.
  intros Hpre Hmid Hl.
  destruct (json_matches_first pre mid post Hpre Hmid) as [more Hm].
  destruct (json_matches_first [] mid [] (fun H => H) Hmid) as [more' Hm'].
  cbn [app] in Hm'. unfold parse_and_reconcile. rewrite Hm, Hm'.
  destruct (loads (sanitize (ch "{" :: mid ++ [ch "}"]))) as [v|];
    [reflexivity | contradiction].
Qed.

Lemma class_not_newline c : tail_char c = true \/ local_char c = true ->
  not_newline c = true.
Proof.
  intros H. unfold not_newline. destruct (N.eqb c 10) eqn:E; [|reflexivity].
  apply N.eqb_eq in E. subst c. destruct H as [H | H]; discriminate.
Qed.

Lemma forallb_impl (p q : N -> bool) l :
  (forall x, p x = true -> q x = true) -> forallb p l = true -> forallb q l = true.
Proof.
  intros Hpq. induction l as [|x l IH]; [reflexivity|]. simpl. intros H.
  apply andb_true_iff in H as [Hx Hl]. now rewrite (Hpq x Hx), IH.
Qed.

Lemma email_is_shaped m : matches email_re m -> matches email_shape_re m.
Proof.
  intros Hm. apply email_matches in Hm
    as (loc & dom & tail & -> & Hl & Hd & Ht & Hfl & Hfd & Hft).
  apply email_shape_matches. exists loc, dom, tail.
  repeat split; try assumption. rewrite !forallb_app.
  rewrite (forallb_impl _ not_newline loc
             (fun x Hx => class_not_newline x (or_intror Hx)) Hfl).
  assert (Hdom : forall x, domain_char x = true -> not_newline x = true).
  { intros x Hx. apply class_not_newline. left. unfold tail_char.
    unfold domain_char in Hx. now rewrite Hx. }
  rewrite (forallb_impl _ not_newline dom Hdom Hfd).
  rewrite (forallb_impl _ not_newline tail
             (fun x Hx => class_not_newline x (or_introl Hx)) Hft).
  reflexivity.
Qed.

Lemma email_not_missing m : matches email_re m -> missing (JStr m) = false.
Proof.
  intros Hm. apply email_matches in Hm
    as (loc & dom & tail & -> & Hl & Hd & Ht & Hfl & Hfd & Hft).
  unfold missing. destruct loc as [|c loc]; [contradiction|].
  cbn [app truthy negb orb in_strings existsb].
  assert (Hat : forall s, contains (py "@") s = false -> 
                          str_eqb (c :: loc ++ ch "@" :: dom ++ ch "." :: tail) s = false).
  { intros s Hs. apply str_eqb_neq. intros <-.
    assert (Hc : contains (py "@")
                   (c :: loc ++ ch "@" :: dom ++ ch "." :: tail) = true).
    { apply contains_spec. exists (c :: loc), (dom ++ ch "." :: tail).
      reflexivity. }
    congruence. }
  now rewrite !Hat by reflexivity.
Qed.

(** X13.  An address the search of the text can return always passes the
    shape check of [safe]: when the model itself returns such an address it
    is kept as it is, whatever the text holds. *)
Theorem found_email_is_kept (data : dict) (links : list pystr)
    (text m : pystr) :
  matches email_re m ->
  model_value data (py "email") = JStr m ->
  re_match email_shape_re m <> None /\
  safe data links text (py "email") = Ok m.
Proof.
  intros Hm Hv.
  assert (Hs : re_match email_shape_re m <> None).
  { apply re_match_iff. exists m, []. split; [now rewrite app_nil_r|].
    now apply email_is_shaped. }
  split; [exact Hs|].
  rewrite (safe_email_present data links text m Hv (email_not_missing m Hm)).
  destruct (re_match email_shape_re m); [reflexivity | contradiction].
Qed.

End Composition.

Lemma surroundings_are_ignored_witness :
  let pre := py "Here you go: " in
  let mid := pyq "'name': 'Bob'" in
  let post := pyq " and {'name': 'Alice'}" in
  ~ In (ch "{") pre /\ ~ In (ch "}") mid /\
  loads (sanitize (ch "{" :: mid ++ [ch "}"])) <> None /\
  parse_and_reconcile (rt := ascii_runtime)
    (pre ++ ch "{" :: mid ++ ch "}" :: post) [] [] =
  parse_and_reconcile (rt := ascii_runtime) (ch "{" :: mid ++ [ch "}"]) [] [].
Proof.
  assert (H1 : ~ In (ch "{") (py "Here you go: "))
    by (vm_compute; intuition discriminate).
  assert (H2 : ~ In (ch "}") (pyq "'name': 'Bob'"))
    by (vm_compute; intuition discriminate).
  assert (H3 : loads (sanitize (ch "{" :: pyq "'name': 'Bob'" ++ [ch "}"]))
               <> None) by (vm_compute; discriminate).
  split; [exact H1 | split; [exact H2 | split; [exact H3 |]]].
  exact (surroundings_are_ignored (rt := ascii_runtime) _ _
           (pyq " and {'name': 'Alice'}") [] [] H1 H2 H3).
Defined.

Lemma found_email_is_kept_witness :
  let m := py "jane.doe@example.com" in
  let data := [(py "email", JStr m)] in
  matches email_re m /\
  model_value data (py "email") = JStr m /\
  safe (rt := ascii_runtime) data [] (py "no address here") (py "email") = Ok m.
Proof.
  assert (H1 : matches email_re (py "jane.doe@example.com")).
  { apply email_matches.
    exists (py "jane.doe"), (py "example"), (py "com").
    repeat split; try discriminate; reflexivity. }
  assert (H2 : model_value [(py "email", JStr (py "jane.doe@example.com"))]
                 (py "email") = JStr (py "jane.doe@example.com"))
    by reflexivity.
  split; [exact H1 | split; [exact H2 |]].
  exact (proj2 (found_email_is_kept (rt := ascii_runtime) _ []
                  (py "no address here") _ H1 H2)).
Defined.
